(** * Schematic: dependency resolution and manifest validation

    A shallow embedding of the metadata-model entry points of the
    [schematic] package:

    - [parse_validation_rules] of [schematic/utils/schema_utils.py];
    - [getOrderedModelNodes], [get_component_requirements] and
      [validateModelManifest] of [MetadataModel.py].

    Python [str] values are embedded as [string] (ASCII text), lists as
    [list], exceptions as the [Raise] branch of a small error monad. *)

From Stdlib Require Import String Ascii List Bool Arith Lia ZArith.
From Stdlib Require Import DecimalString Relations.
From Stdlib Require Import DecimalZ DecimalPos Sorted.
Import ListNotations.
Open Scope string_scope.
Open Scope list_scope.

(** ** Exceptions and the result monad *)

Inductive exn : Type :=
| NotFound        (* ValueError: root node absent from the model graph *)
| CycleDetected   (* the traversed relationship subgraph has a cycle   *)
| SchemaError     (* jsonschema.SchemaError: malformed schema document *)
| IndexError.     (* Python IndexError: list index out of range        *)

Inductive result (A : Type) : Type :=
| Ok (a : A)
| Raise (e : exn).
Arguments Ok {A} a.
Arguments Raise {A} e.

Definition bind {A B : Type} (r : result A) (k : A -> result B) : result B :=
  match r with
  | Ok a => k a
  | Raise e => Raise e
  end.

Notation "x <- r ;; k" := (bind r (fun x => k))
  (at level 61, r at next level, right associativity).

Section FoldM.
Variables (A B : Type) (f : B -> A -> result B).

(** A [for] loop whose body may raise: the accumulator is threaded
    through the elements, the first exception aborts the loop. *)
Fixpoint foldM (l : list A) (b : B) : result B :=
  match l with
  | [] => Ok b
  | a :: l' =>
      match f b a with
      | Ok b' => foldM l' b'
      | Raise e => Raise e
      end
  end.
End FoldM.
Arguments foldM {A B} f l b.

(** ** Python string operations *)

Module PyStr.
#[local] Open Scope string_scope.

Definition newline : ascii := "010"%char.

(** [c.isspace()] on the ASCII range. *)
Definition is_space (c : ascii) : bool :=
  let n := nat_of_ascii c in
  (((9 <=? n) && (n <=? 13)) || ((28 <=? n) && (n <=? 32)))%nat.

Fixpoint all_space (s : string) : bool :=
  match s with
  | EmptyString => true
  | String c s' => is_space c && all_space s'
  end.

Fixpoint lstrip (s : string) : string :=
  match s with
  | EmptyString => EmptyString
  | String c s' => if is_space c then lstrip s' else s
  end.

Fixpoint rstrip (s : string) : string :=
  match s with
  | EmptyString => EmptyString
  | String c s' =>
      match rstrip s' with
      | EmptyString => if is_space c then EmptyString else String c EmptyString
      | r => String c r
      end
  end.

(** [s.strip()] *)
Definition strip (s : string) : string := rstrip (lstrip s).

(** [sep in s] *)
Fixpoint contains (sep s : string) : bool :=
  match s with
  | EmptyString => prefix sep EmptyString
  | String _ s' => prefix sep s || contains sep s'
  end.

(** [s.split(sep)] for a non-empty separator: occurrences are taken
    left to right and do not overlap. [skip] counts the characters of
    a separator just matched that are still to be passed over; [cur]
    is the token being read. *)
Fixpoint split_go (sep : string) (skip : nat) (cur s : string) : list string :=
  match s with
  | EmptyString => [cur]
  | String c s' =>
      match skip with
      | S k => split_go sep k cur s'
      | O =>
          if prefix sep s
          then cur :: split_go sep (String.length sep - 1) EmptyString s'
          else split_go sep 0 (cur ++ String c EmptyString) s'
      end
  end.

Definition split (sep s : string) : list string := split_go sep 0 EmptyString s.

(** [sep.join(l)] *)
Fixpoint join (sep : string) (l : list string) : string :=
  match l with
  | [] => EmptyString
  | [x] => x
  | x :: l' => x ++ sep ++ join sep l'
  end.

(** [s.replace(old, new)] for a non-empty [old]. *)
Fixpoint replace_go (old new : string) (skip : nat) (s : string) : string :=
  match s with
  | EmptyString => EmptyString
  | String c s' =>
      match skip with
      | S k => replace_go old new k s'
      | O =>
          if prefix old s
          then new ++ replace_go old new (String.length old - 1) s'
          else String c (replace_go old new 0 s')
      end
  end.

Definition replace (old new s : string) : string := replace_go old new 0 s.

(** [re.compile(open + '(.*?)' + close).findall(s)]: the shortest
    stretches between an [open] character and the next [close]
    character; [.] does not match a newline, so a stretch cut by a
    newline is dropped and the scan resumes after it. *)
Fixpoint findall_go (open close : ascii) (inside : option string) (s : string)
  : list string :=
  match s with
  | EmptyString => []
  | String c s' =>
      match inside with
      | None =>
          if Ascii.eqb c open then findall_go open close (Some EmptyString) s'
          else findall_go open close None s'
      | Some cur =>
          if Ascii.eqb c close then cur :: findall_go open close None s'
          else if Ascii.eqb c newline then findall_go open close None s'
          else findall_go open close (Some (cur ++ String c EmptyString)) s'
      end
  end.

Definition findall (open close : ascii) (s : string) : list string :=
  findall_go open close None s.

(** [str(n)] for a non-negative integer. *)
Definition str_of_nat (n : nat) : string :=
  NilZero.string_of_uint (Nat.to_uint n).

Fixpoint drop (n : nat) (s : string) : string :=
  match n, s with
  | O, _ => s
  | S k, EmptyString => EmptyString
  | S k, String _ s' => drop k s'
  end.

End PyStr.

(** ** schema_utils.parse_validation_rules *)

(** [if validation_rules and "::" in validation_rules[0]:
       validation_rules = validation_rules[0].split("::")
     return validation_rules] *)
Definition parse_validation_rules (validation_rules : list string) : list string :=
  match validation_rules with
  | [] => validation_rules
  | first :: _ =>
      if PyStr.contains "::" first
      then PyStr.split "::" first
      else validation_rules
  end.

(** ** Python sequence indexing *)

(** [l[i]], with negative indices counted from the end. *)
Definition getitem {A : Type} (l : list A) (i : Z) : result A :=
  let n := Z.of_nat (length l) in
  let j := if (i <? 0)%Z then (n + i)%Z else i in
  if (j <? 0)%Z then Raise IndexError
  else match nth_error l (Z.to_nat j) with
       | Some a => Ok a
       | None => Raise IndexError
       end.

(** [enumerate(l)] *)
Definition enumerate {A : Type} (l : list A) : list (nat * A) :=
  combine (seq 0 (length l)) l.

(** ** The manifest table and its records *)

Module Manifest.

(** A cell of the frame [pd.read_csv] returns: a missing value, a
    string or a number. *)
Inductive cell : Type :=
| NaN
| CStr (s : string)
| CNum (n : Z).

Record column : Type := { col_name : string; col_cells : list cell }.

(** Columns in header order; every column has one cell per data row. *)
Definition DataFrame : Type := list column.

Inductive json : Type :=
| JNull
| JStr (s : string)
| JNum (n : Z).

(** One JSON record per data row: field name and value. *)
Definition annotation : Type := list (string * json).

Definition is_str (c : cell) : bool :=
  match c with CStr _ => true | _ => false end.

(** [df.fillna("")] *)
Definition fillna_cell (c : cell) : cell :=
  match c with NaN => CStr "" | _ => c end.

Definition fillna (df : DataFrame) : DataFrame :=
  map (fun x => {| col_name := col_name x;
                   col_cells := map fillna_cell (col_cells x) |}) df.

(** [x.dtype == "object"]: a column of a frame read from CSV holds
    either numbers only, or strings (and, once filled, the empty
    strings that replaced its missing cells). *)
Definition dtype_is_object (x : column) : bool :=
  existsb is_str (col_cells x).

(** [x.str.strip()]: strings are stripped, any other value yields a
    missing value. *)
Definition str_strip_cell (c : cell) : cell :=
  match c with CStr s => CStr (PyStr.strip s) | _ => NaN end.

(** [manifest.apply(lambda x: x.str.strip() if x.dtype == "object" else x)] *)
Definition trim (df : DataFrame) : DataFrame :=
  map (fun x => if dtype_is_object x
                then {| col_name := col_name x;
                        col_cells := map str_strip_cell (col_cells x) |}
                else x) df.

Definition to_json_cell (c : cell) : json :=
  match c with
  | NaN => JNull
  | CStr s => JStr s
  | CNum n => JNum n
  end.

Definition nrows (df : DataFrame) : nat :=
  match df with
  | [] => 0
  | x :: _ => length (col_cells x)
  end.

(** [json.loads(df.to_json(orient='records'))] *)
Definition to_records (df : DataFrame) : list annotation :=
  map (fun i => map (fun x => (col_name x, to_json_cell (nth i (col_cells x) NaN))) df)
      (seq 0 (nrows df)).

(** The records [validateModelManifest] validates:
    [manifest = pd.read_csv(manifestPath).fillna("")], trimmed, as JSON. *)
Definition annotations_of (csv : DataFrame) : list annotation :=
  to_records (trim (fillna csv)).

End Manifest.

(** ** MetadataModel.validateModelManifest *)

Module Validation.
Import Manifest.
#[local] Open Scope string_scope.

Definition nl : string := String PyStr.newline EmptyString.

(** The value bound to [errorTerms]: the (empty) list [findall]
    returned, or the string taken out of it. *)
Inductive pyval : Type :=
| PyList (l : list string)
| PyString (s : string).

(** The tuple [(errorRow, errorTerms, errorValue, allowedValues)]. *)
Record Diagnostic : Type := {
  errorRow : nat;
  errorTerms : pyval;
  errorValue : string;
  allowedValues : list string
}.

(** The body of [except ValidationError as e], on [str(e)] and the
    position [i] of the record. The text [errorMessage] goes on being
    assembled after the last line below but is not returned. *)
Definition parse_error (i : nat) (str_e : string) : result Diagnostic :=
  let errorRow := i + 2 in
  let errorMessage := "At row " ++ PyStr.str_of_nat errorRow ++ ": " in
  let errors := PyStr.split nl str_e in
  errors_0 <- getitem errors 0 ;;
  errorValue <- getitem (PyStr.findall "'" "'" errors_0) 0 ;;
  let errorMessage := errorMessage ++ errors_0 in
  let allowedValues :=
    match PyStr.findall "[" "]" errorMessage with
    | [] => []
    | first :: _ => PyStr.split ", " (PyStr.replace "'" "" first)
    end in
  errors_m2 <- getitem errors (-2) ;;
  let errorDetail := PyStr.replace "On instance" "At term" errors_m2 in
  errorTerms <-
    match PyStr.findall "[" "]" errorDetail with
    | [] => Ok (PyList [])
    | first :: _ =>
        t <- getitem (PyStr.split ", " (PyStr.replace "'" "" first)) 0 ;;
        Ok (PyString t)
    end ;;
  Ok {| errorRow := errorRow; errorTerms := errorTerms;
        errorValue := errorValue; allowedValues := allowedValues |}.

(** What a call of [jsonschema.validate] does. *)
Inductive outcome : Type :=
| Returns
| RaisesValidationError (str_e : string)
| RaisesSchemaError.

Section Validator.
(** The [jsonschema] library and the schema generator are outside
    this module; they are taken as given:
    - [schema], a constraint document, [truthy] its truth value;
    - [get_JSONSchema_requirements], the generator for a root node;
    - [check_schema], whether a document is a well-formed schema;
    - [iter_errors], every violation of a record, each as the text
      [str(e)] of its [ValidationError];
    - [best_match], the violation [validate] chooses to raise among
      the reported ones (given as first and rest). *)
Variable schema : Type.
Variable truthy : schema -> bool.
Variable get_JSONSchema_requirements : string -> string -> schema.
Variable check_schema : schema -> bool.
Variable iter_errors : schema -> annotation -> list string.
Variable best_match : string -> list string -> string.

(** [jsonschema.validate(instance, schema)]: the schema is checked,
    then the best match of the violations, if any, is raised. *)
Definition validate (instance : annotation) (jsonSchema : schema) : outcome :=
  if check_schema jsonSchema then
    match iter_errors jsonSchema instance with
    | [] => Returns
    | e :: es => RaisesValidationError (best_match e es)
    end
  else RaisesSchemaError.

(** One pass of the loop body. *)
Definition validate_record (jsonSchema : schema)
    (errorPositions : list Diagnostic) (ia : nat * annotation)
  : result (list Diagnostic) :=
  let '(i, annotation) := ia in
  match validate annotation jsonSchema with
  | Returns => Ok errorPositions
  | RaisesSchemaError => Raise SchemaError
  | RaisesValidationError str_e =>
      d <- parse_error i str_e ;;
      Ok (errorPositions ++ [d])%list
  end.

(** [if not jsonSchema: jsonSchema = get_JSONSchema_requirements(...)] *)
Definition schema_in_use (rootNode : string) (jsonSchema : option schema) : schema :=
  match jsonSchema with
  | Some s => if truthy s then s
              else get_JSONSchema_requirements rootNode (rootNode ++ "_validation")
  | None => get_JSONSchema_requirements rootNode (rootNode ++ "_validation")
  end.

(** Row numbers of the records that violate at least one
    constraint, in record order. *)
Definition violating_rows (jsonSchema : schema) (annotations : list annotation)
  : list nat :=
  map (fun ia => fst ia + 2)
      (filter (fun ia => match iter_errors jsonSchema (snd ia) with
                         | [] => false
                         | _ :: _ => true
                         end)
              (enumerate annotations)).

(** [manifest] stands for the frame [pd.read_csv(manifestPath)]. *)
Definition validateModelManifest (manifest : DataFrame) (rootNode : string)
    (jsonSchema : option schema) : result (list Diagnostic) :=
  let jsonSchema := schema_in_use rootNode jsonSchema in
  let annotations := annotations_of manifest in
  foldM (validate_record jsonSchema) (enumerate annotations) [].

End Validator.

End Validation.

(** ** The schema graph *)

Module Graph.

Definition label : Type := string.

(** The model graph [se.schema_nx]: node labels, and edges
    [(source, target, key)] whose key is the relationship kind. *)
Record SchemaGraph : Type := {
  nodes : list label;
  edges : list (label * label * string)
}.

Definition mem (x : label) (l : list label) : bool := existsb (String.eqb x) l.

Definition nodeExists (g : SchemaGraph) (l : label) : bool := mem l (nodes g).

(** Targets of the edges of kind [kind] leaving [u], in edge order. *)
Definition outEdges (g : SchemaGraph) (kind : string) (u : label) : list label :=
  map (fun e => snd (fst e))
      (filter (fun e => String.eqb (fst (fst e)) u && String.eqb (snd e) kind)
              (edges g)).

(** Every edge endpoint references an existing node. *)
Definition well_formed (g : SchemaGraph) : Prop :=
  forall u v k, In (u, v, k) (edges g) -> In u (nodes g) /\ In v (nodes g).

Definition edge (g : SchemaGraph) (kind : string) (u v : label) : Prop :=
  In (u, v, kind) (edges g).

(** [reach g kind u v]: a path of [kind]-edges leads from [u] to [v]. *)
Inductive reach (g : SchemaGraph) (kind : string) : label -> label -> Prop :=
| reach_refl : forall u, reach g kind u u
| reach_step : forall u v w, edge g kind u v -> reach g kind v w -> reach g kind u w.

(** The [kind]-subgraph reachable from [root] has no cycle. *)
Definition acyclic_from (g : SchemaGraph) (kind : string) (root : label) : Prop :=
  forall x y, reach g kind root x -> edge g kind x y -> ~ reach g kind y x.

(** [x] occurs strictly before [y] in [l]. *)
Definition before {A : Type} (x y : A) (l : list A) : Prop :=
  exists l1 l2 l3, l = l1 ++ x :: l2 ++ y :: l3.

Fixpoint beforeb (x y : label) (l : list label) : bool :=
  match l with
  | [] => false
  | a :: l' => (String.eqb a x && mem y l') || beforeb x y l'
  end.

(** [l] lists each node ahead of all its [kind]-successors, once. *)
Inductive topo (g : SchemaGraph) (kind : string) : list label -> Prop :=
| topo_nil : topo g kind []
| topo_cons : forall x l,
    topo g kind l -> ~ In x l -> (forall y, edge g kind x y -> In y l) ->
    topo g kind (x :: l).

End Graph.

(** ** schema_generator: the traversals behind the resolver methods *)

Module SchemaGenerator.
Import Graph.

Section Traversal.
Variable mm_graph : SchemaGraph.
Variable relationship : string.

(** Depth-first visit of [u]. [path] holds the nodes being visited
    (the ancestors of [u]), [done] the finished nodes, last
    finished first: a node is finished, and put in front of [done],
    once all its successors are. Meeting a node of [path] again is
    a cycle; [fuel] bounds the depth by the node count. *)
Fixpoint visit (fuel : nat) (path done : list label) (u : label)
  : result (list label) :=
  match fuel with
  | O => Raise CycleDetected
  | S fuel' =>
      if mem u done then Ok done
      else if mem u path then Raise CycleDetected
      else
        done' <- foldM (visit fuel' (u :: path))
                       (outEdges mm_graph relationship u) done ;;
        Ok (u :: done')
  end.

(** Breadth-first step over one successor [v] of [u]: [v] is a
    cycle if it lies on the path that led to [u], is skipped if
    already visited, and is otherwise queued and recorded. *)
Definition bfs_child (u : label) (path : list label)
    (st : list (label * list label) * list label) (v : label)
  : result (list (label * list label) * list label) :=
  let '(queue, visited) := st in
  if mem v (u :: path) then Raise CycleDetected
  else if mem v visited then Ok (queue, visited)
  else Ok (queue ++ [(v, u :: path)], visited ++ [v]).

Fixpoint bfs (fuel : nat) (queue : list (label * list label))
    (visited : list label) : result (list label) :=
  match fuel with
  | O => Raise CycleDetected
  | S fuel' =>
      match queue with
      | [] => Ok visited
      | (u, path) :: queue' =>
          st <- foldM (bfs_child u path)
                      (outEdges mm_graph relationship u) (queue', visited) ;;
          bfs fuel' (fst st) (snd st)
      end
  end.
End Traversal.

(** Modelled from the spec: [get_descendants_by_edge_type] of
    [schema_generator.py] is missing from the sources; this is the
    resolver of section 4.2 before the caller reverses it, as called
    with [connected = True, ordered = True]: the nodes reachable from
    [source_node] over [relationship] edges in a topological order
    (every edge goes from an earlier to a later node) obtained depth
    first, each node once, [source_node] itself left out; [NotFound]
    if the node is absent, [CycleDetected] on a cycle. *)
Definition get_descendants_by_edge_type (mm_graph : SchemaGraph)
    (source_node : label) (relationship : string) : result (list label) :=
  if nodeExists mm_graph source_node then
    done <- visit mm_graph relationship (S (length (nodes mm_graph)))
                  [] [] source_node ;;
    Ok (filter (fun x => negb (String.eqb x source_node)) done)
  else Raise NotFound.

(** Modelled from the spec: [get_component_requirements] of
    [schema_generator.py] is missing from the sources; this is the
    resolver of section 4.3: the closure of [source_component] under
    [requiresComponent] edges, visited breadth first, nearest
    requirement first, each component once (first visit wins), the
    source left out; [NotFound] if the source is absent,
    [CycleDetected] if a component is met again on its own path. *)
Definition get_component_requirements (mm_graph : SchemaGraph)
    (source_component : label) : result (list label) :=
  if nodeExists mm_graph source_component then
    bfs mm_graph "requiresComponent" (S (length (nodes mm_graph)))
        [(source_component, [])] []
  else Raise NotFound.

End SchemaGenerator.

(** ** MetadataModel: the resolver methods *)

Module MetadataModel.
Import Graph.

(** Modelled from the spec: [SchemaExplorer] ([schema_explorer.py]) is
    missing from the sources; of it the methods below use the model
    graph only, a query-only view that no resolver call mutates. *)
Record SchemaExplorer : Type := { schema_nx : SchemaGraph }.

Definition get_nx_schema (se : SchemaExplorer) : SchemaGraph := schema_nx se.

(** The object [self]. *)
Record MetadataModel : Type := {
  se : SchemaExplorer;
  inputMModelLocation : string;
  inputMModelLocationType : string
}.

(** A method call: its outcome and the object it leaves behind. *)
Definition method (A : Type) : Type := MetadataModel -> result A * MetadataModel.

Definition call {A : Type} (m : method A) (self : MetadataModel) : result A :=
  fst (m self).

(** Two calls in a row on the same object. *)
Definition call_twice {A : Type} (m : method A) (self : MetadataModel)
  : result A * result A :=
  let '(r1, self1) := m self in
  let '(r2, _) := m self1 in
  (r1, r2).

(** [ordered_nodes = get_descendants_by_edge_type(self.se.schema_nx,
       rootNode, relationshipType, connected = True, ordered = True)
     ordered_nodes.reverse()
     return ordered_nodes] *)
Definition getOrderedModelNodes (rootNode : label) (relationshipType : string)
  : method (list label) :=
  fun self =>
    (ordered_nodes <- SchemaGenerator.get_descendants_by_edge_type
                        (schema_nx (se self)) rootNode relationshipType ;;
     Ok (rev ordered_nodes),
     self).

(** [mm_graph = self.se.get_nx_schema()
     req_components = get_component_requirements(mm_graph, source_component)
     return req_components] *)
Definition get_component_requirements (source_component : label)
  : method (list label) :=
  fun self =>
    let mm_graph := get_nx_schema (se self) in
    let req_components :=
      SchemaGenerator.get_component_requirements mm_graph source_component in
    (req_components, self).

End MetadataModel.

(** ** Manifests that differ only in blanks *)

Module Blanks.
Import Manifest.
#[local] Open Scope string_scope.




End Blanks.

(** ** A validator to run the manifest check on *)

Module Fixture.
Import Manifest Validation.
#[local] Open Scope string_scope.

(** Constraint documents made of per-field enumerations and lower
    bounds, with their violations worded as [jsonschema] words them. *)
Inductive rule : Type :=
| Enum (field : string) (allowed : list string)
| Minimum (field : string) (bound : Z).

Definition schema : Type := list rule.

Definition repr_str (s : string) : string := "'" ++ s ++ "'".

Definition repr_list (l : list string) : string :=
  "[" ++ PyStr.join ", " (map repr_str l) ++ "]".

Definition repr_int (n : Z) : string := NilZero.string_of_int (Z.to_int n).

Definition repr_json (v : json) : string :=
  match v with
  | JNull => "None"
  | JStr s => repr_str s
  | JNum n => repr_int n
  end.

(** [str(e)] of a violation found at a field of the record. *)
Definition render (message keyword field subschema instance : string) : string :=
  message ++ nl ++ nl
  ++ "Failed validating " ++ repr_str keyword
  ++ " in schema['properties'][" ++ repr_str field ++ "]:" ++ nl
  ++ "    " ++ subschema ++ nl ++ nl
  ++ "On instance[" ++ repr_str field ++ "]:" ++ nl
  ++ "    " ++ instance.

Fixpoint lookup (field : string) (a : annotation) : option json :=
  match a with
  | [] => None
  | (k, v) :: a' => if String.eqb k field then Some v else lookup field a'
  end.

Definition is_allowed (v : json) (allowed : list string) : bool :=
  match v with
  | JStr s => existsb (String.eqb s) allowed
  | _ => false
  end.

Definition rule_errors (a : annotation) (r : rule) : list string :=
  match r with
  | Enum field allowed =>
      match lookup field a with
      | Some v =>
          if is_allowed v allowed then []
          else [render (repr_json v ++ " is not one of " ++ repr_list allowed)
                       "enum" field
                       ("{'enum': " ++ repr_list allowed ++ "}")
                       (repr_json v)]
      | None => []
      end
  | Minimum field bound =>
      match lookup field a with
      | Some (JNum n) =>
          if (n <? bound)%Z
          then [render (repr_int n ++ " is less than the minimum of " ++ repr_int bound)
                       "minimum" field
                       ("{'minimum': " ++ repr_int bound ++ "}")
                       (repr_int n)]
          else []
      | _ => []
      end
  end.

Definition iter_errors (s : schema) (a : annotation) : list string :=
  flat_map (rule_errors a) s.

Definition truthy (s : schema) : bool :=
  match s with [] => false | _ => true end.

Definition get_JSONSchema_requirements (rootNode title : string) : schema := [].

Definition check_schema (s : schema) : bool := true.

Definition best_match (e : string) (es : list string) : string := e.

(** [validateModelManifest] over this validator. *)
Definition run (manifest : DataFrame) (jsonSchema : schema)
  : result (list Diagnostic) :=
  validateModelManifest schema truthy get_JSONSchema_requirements
    check_schema iter_errors best_match manifest "Patient" (Some jsonSchema).

Definition patient_schema : schema :=
  [Enum "Diagnosis" ["Cancer"; "Healthy"]; Enum "Stage" ["I"; "II"]].

Definition age_schema : schema := [Minimum "Age" 10].

(** Row 2 is valid, rows 3 and 4 are not; row 3 breaks both rules. *)
Definition patients : DataFrame :=
  [ {| col_name := "Diagnosis";
       col_cells := [CStr "Cancer"; CStr "Unknown"; CStr " Healthy "] |};
    {| col_name := "Stage";
       col_cells := [CStr "II"; CStr "V"; NaN] |} ].


(** The diagnostics expected for rows 3 and 4 of [patients]. *)
Definition unknown_diagnosis : Diagnostic :=
  {| errorRow := 3; errorTerms := PyString "Diagnosis";
     errorValue := "Unknown"; allowedValues := ["Cancer"; "Healthy"] |}.

Definition missing_stage : Diagnostic :=
  {| errorRow := 4; errorTerms := PyString "Stage";
     errorValue := ""; allowedValues := ["I"; "II"] |}.

(** The supplied value itself carries a bracketed stretch. *)
Definition bracketed : DataFrame :=
  [ {| col_name := "Diagnosis"; col_cells := [CStr "Cancer [stage 2]"] |} ].

Definition ages : DataFrame :=
  [ {| col_name := "Age"; col_cells := [CNum 5] |} ].

Definition model_graph : Graph.SchemaGraph :=
  {| Graph.nodes := ["Patient"; "Diagnosis"; "CancerType"; "Age"];
     Graph.edges :=
       [ ("Patient", "Diagnosis", "requiresDependency");
         ("Patient", "Age", "requiresDependency");
         ("Diagnosis", "CancerType", "requiresDependency");
         ("Patient", "CancerType", "requiresDependency");
         ("Patient", "Diagnosis", "requiresComponent");
         ("Diagnosis", "CancerType", "requiresComponent");
         ("Patient", "CancerType", "requiresComponent") ] |}.

Definition model : MetadataModel.MetadataModel :=
  {| MetadataModel.se := {| MetadataModel.schema_nx := model_graph |};
     MetadataModel.inputMModelLocation := "data/schema.jsonld";
     MetadataModel.inputMModelLocationType := "local" |}.

(** Two components that require each other. *)
Definition cyclic_graph : Graph.SchemaGraph :=
  {| Graph.nodes := ["A"; "B"];
     Graph.edges := [ ("A", "B", "requiresComponent");
                      ("B", "A", "requiresComponent") ] |}.

(** A rank that drops along every edge of [model_graph]. *)
Definition rank (l : Graph.label) : nat :=
  if String.eqb l "Patient" then 3
  else if String.eqb l "Diagnosis" then 2
  else if String.eqb l "CancerType" then 1
  else 0.

End Fixture.

(** ** A validator of required properties *)

Module RequiredFixture.
Import Manifest Validation.
#[local] Open Scope string_scope.

(** Constraint documents that list required properties; a missing
    one is worded as [jsonschema] words it, with its location at the
    record itself. *)
Definition schema : Type := list string.

Definition repr_record (a : annotation) : string :=
  "{" ++ PyStr.join ", "
           (map (fun kv => Fixture.repr_str (fst kv) ++ ": " ++ Fixture.repr_json (snd kv)) a)
      ++ "}".

Definition missing_property (s : schema) (a : annotation) (field : string) : string :=
  Fixture.repr_str field ++ " is a required property" ++ nl ++ nl
  ++ "Failed validating 'required' in schema:" ++ nl
  ++ "    {'required': " ++ Fixture.repr_list s ++ "}" ++ nl ++ nl
  ++ "On instance:" ++ nl
  ++ "    " ++ repr_record a.

Definition iter_errors (s : schema) (a : annotation) : list string :=
  flat_map (fun field => match Fixture.lookup field a with
                         | Some _ => []
                         | None => [missing_property s a field]
                         end) s.

Definition run (manifest : DataFrame) (jsonSchema : schema)
  : result (list Diagnostic) :=
  validateModelManifest schema (fun s => match s with [] => false | _ => true end)
    (fun _ _ => []) (fun _ => true) iter_errors (fun e _ => e)
    manifest "Patient" (Some jsonSchema).



End RequiredFixture.

(** ** Exceptions of the utility modules *)

Inductive exception : Type :=
| ValueError
| KeyError
| TypeError
| AttributeError
| UnboundLocalError   (* a local name read before any assignment *)
| OverflowError
| RecursionError
| OSError.            (* a file that cannot be opened *)

(** The outcome of a call that may raise one of them. *)
Inductive answer (A : Type) : Type :=
| Return (a : A)
| Throw (e : exception).
Arguments Return {A} a.
Arguments Throw {A} e.

Definition and_then {A B : Type} (r : answer A) (k : A -> answer B) : answer B :=
  match r with
  | Return a => k a
  | Throw e => Throw e
  end.

Notation "x <~ r ;; k" := (and_then r (fun x => k))
  (at level 61, r at next level, right associativity).

(** ** More Python string operations *)

Module PyText.
#[local] Open Scope string_scope.

(** Membership in [string.whitespace], that is [' \t\n\r\x0b\x0c']. *)
Definition in_string_whitespace (c : ascii) : bool :=
  let n := nat_of_ascii c in
  (((9 <=? n) && (n <=? 13)) || (n =? 32))%nat.

(** [s.translate(table)]: a character the table maps is replaced by
    its image (the empty text deletes it), any other is kept. *)
Fixpoint translate (table : ascii -> option string) (s : string) : string :=
  match s with
  | EmptyString => EmptyString
  | String c s' =>
      match table c with
      | Some image => image ++ translate table s'
      | None => String c (translate table s')
      end
  end.

Fixpoint all_string_whitespace (s : string) : bool :=
  match s with
  | EmptyString => true
  | String c s' => in_string_whitespace c && all_string_whitespace s'
  end.

(** [{ord(c): None for c in string.whitespace}] *)
Definition whitespace_to_none (c : ascii) : option string :=
  if in_string_whitespace c then Some "" else None.

(** [{ord(c): "_" for c in string.whitespace}] *)
Definition whitespace_to_underscore (c : ascii) : option string :=
  if in_string_whitespace c then Some "_" else None.

(** [{ord(x): "" for x in chars}], for one-character strings [chars]. *)
Definition chars_to_empty (chars : list string) (c : ascii) : option string :=
  if existsb (String.eqb (String c "")) chars then Some "" else None.

(** [c.lower()] and [s.lower()] on the ASCII range. *)
Definition lower_char (c : ascii) : ascii :=
  let n := nat_of_ascii c in
  if ((65 <=? n) && (n <=? 90))%nat then ascii_of_nat (n + 32) else c.

Fixpoint lower (s : string) : string :=
  match s with
  | EmptyString => EmptyString
  | String c s' => String (lower_char c) (lower s')
  end.

(** Number of occurrences of a character. *)
Fixpoint count_char (c : ascii) (s : string) : nat :=
  match s with
  | EmptyString => 0
  | String a s' => (if Ascii.eqb a c then 1 else 0) + count_char c s'
  end.

Definition is_digit (c : ascii) : bool :=
  let n := nat_of_ascii c in ((48 <=? n) && (n <=? 57))%nat.

Fixpoint all_digits (s : string) : bool :=
  match s with
  | EmptyString => true
  | String c s' => is_digit c && all_digits s'
  end.

(** [s.isdigit()] on the ASCII range: some character, all of them digits. *)
Definition isdigit (s : string) : bool :=
  match s with
  | EmptyString => false
  | _ => all_digits s
  end.

(** [str(n)] and [int(s)] for a string of digits. *)
Definition str_of_int (n : Z) : string := NilZero.string_of_int (Z.to_int n).

Definition int_of_digits (s : string) : Z :=
  match NilEmpty.uint_of_string s with
  | Some d => Z.of_uint d
  | None => 0%Z
  end.

End PyText.

(** ** schema_utils: labels and contexts *)

Module SchemaUtils.
#[local] Open Scope string_scope.

Section Labels.
(** [inflection.camelize(string, uppercase_first_letter)], a function
    of the [inflection] library, taken as given. *)
Variable camelize : string -> bool -> answer string.

Definition get_property_label_from_display_name
    (display_name : string) (strict_camel_case : bool) : answer string :=
  if strict_camel_case then
    let display_name :=
      PyText.translate PyText.whitespace_to_underscore (PyStr.strip display_name) in
    camelize display_name false
  else
    let display_name := PyText.translate PyText.whitespace_to_none display_name in
    camelize (PyStr.strip display_name) false.

Definition get_class_label_from_display_name
    (display_name : string) (strict_camel_case : bool) : answer string :=
  if strict_camel_case then
    let display_name :=
      PyText.translate PyText.whitespace_to_underscore (PyStr.strip display_name) in
    camelize display_name true
  else
    let display_name := PyText.translate PyText.whitespace_to_none display_name in
    camelize (PyStr.strip display_name) true.

(** [any(map(display_name.__contains__, blacklisted_chars))] decides
    against the name. *)
Definition check_if_display_name_is_valid_label
    (display_name : string) (blacklisted_chars : list string) : bool :=
  if existsb (fun c => PyStr.contains c display_name) blacklisted_chars
  then false else true.

Definition blacklisted_chars : list string := ["("; ")"; "."; " "; "-"].

(** In the [display_label] branch an entry type that is neither class
    nor property leaves [label] unassigned, and the warning that
    follows reads it. *)
Definition get_label_from_display_name
    (display_name entry_type : string) (strict_camel_case : bool)
    (data_model_labels : string) : answer string :=
  if String.eqb data_model_labels "display_label" then
    let valid_display_name :=
      check_if_display_name_is_valid_label display_name blacklisted_chars in
    if valid_display_name then Return display_name
    else
      if String.eqb (PyText.lower entry_type) "class" then
        label <~ get_class_label_from_display_name display_name false ;;
        Return (PyText.translate (PyText.chars_to_empty blacklisted_chars) label)
      else if String.eqb (PyText.lower entry_type) "property" then
        label <~ get_property_label_from_display_name display_name false ;;
        Return (PyText.translate (PyText.chars_to_empty blacklisted_chars) label)
      else Throw UnboundLocalError
  else
    if String.eqb (PyText.lower entry_type) "class" then
      get_class_label_from_display_name display_name strict_camel_case
    else if String.eqb (PyText.lower entry_type) "property" then
      get_property_label_from_display_name display_name strict_camel_case
    else Throw ValueError.

End Labels.

(** [context, v = l]: exactly two items, else a [ValueError]. *)
Definition unpack_pair (l : list string) : answer (string * string) :=
  match l with
  | [a; b] => Return (a, b)
  | _ => Throw ValueError
  end.

(** Neither branch taken leaves [context] and [v] unassigned. *)
Definition strip_context (context_value : string) : answer (string * string) :=
  if PyStr.contains ":" context_value then
    unpack_pair (PyStr.split ":" context_value)
  else if PyStr.contains "@" context_value then
    unpack_pair (PyStr.split "@" context_value)
  else Throw UnboundLocalError.

(** A stand-in for [camelize] to run the label functions on: it
    upper-cases nothing and fails on nothing. *)
Definition keep_case (s : string) (uppercase_first_letter : bool) : answer string :=
  Return s.

End SchemaUtils.

(** ** df_utils: helpers on manifest frames *)

Module DfUtils.
Import Manifest.
#[local] Open Scope string_scope.

(** What [convert_ints] returns: a 64-bit integer or [False]. *)
Inductive int_or_false : Type :=
| Int64 (n : Z)
| PyFalse.

(** [np.int64(x)] for a string of digits: the number read, which has
    to fit 64 signed bits. *)
Definition np_int64 (x : string) : answer Z :=
  let n := PyText.int_of_digits x in
  if (n <? 2 ^ 63)%Z then Return n else Throw OverflowError.

(** [np.int64(x) if str.isdigit(x) else False] *)
Definition convert_ints (x : string) : answer int_or_false :=
  if PyText.isdigit x then n <~ np_int64 x ;; Return (Int64 n)
  else Return PyFalse.

(** [df.columns.to_list()]; the labels of a frame are taken to be
    distinct, as [read_csv] makes them. *)
Definition columns (df : DataFrame) : list string := map col_name df.

(** [col.lower() in [manifest_col.lower() for manifest_col in df.columns.to_list()]] *)
Definition col_in_dataframe (col : string) (df : DataFrame) : bool :=
  existsb (String.eqb (PyText.lower col)) (map PyText.lower (columns df)).

(** [df[name]]: the cells of the column, a [KeyError] without it. *)
Fixpoint getcol (name : string) (df : DataFrame) : answer (list cell) :=
  match df with
  | [] => Throw KeyError
  | x :: df' => if String.eqb (col_name x) name then Return (col_cells x)
                else getcol name df'
  end.

(** [df[name] = cells]: the column is overwritten where it stands, or
    added after the last one. *)
Fixpoint setcol (name : string) (cells : list cell) (df : DataFrame) : DataFrame :=
  match df with
  | [] => [ {| col_name := name; col_cells := cells |} ]
  | x :: df' => if String.eqb (col_name x) name
                then {| col_name := name; col_cells := cells |} :: df'
                else x :: setcol name cells df'
  end.

(** [df[target_col] = df[source_col]; return df] *)
Definition populate_df_col_with_another_col
    (df : DataFrame) (source_col target_col : string) : answer DataFrame :=
  cells <~ getcol source_col df ;;
  Return (setcol target_col cells df).

Definition isna (c : cell) : bool :=
  match c with NaN => true | _ => false end.

(** The rows of the given positions, in that order. *)
Definition take_rows (rows : list nat) (x : column) : column :=
  {| col_name := col_name x;
     col_cells := map (fun i => nth i (col_cells x) NaN) rows |}.

(** [df.dropna(how="all", axis=0)]: a row goes when every cell of it
    is missing. *)
Definition dropna_all (df : DataFrame) : DataFrame :=
  let rows :=
    filter (fun i => negb (forallb (fun x => isna (nth i (col_cells x) NaN)) df))
           (seq 0 (nrows df)) in
  map (take_rows rows) df.

(** [df.loc[:, ~df.columns.str.contains("^Unnamed")]] *)
Definition drop_unnamed (df : DataFrame) : DataFrame :=
  filter (fun x => negb (prefix "Unnamed" (col_name x))) df.

(** [df = df.loc[:, ~df.columns.str.contains("^Unnamed")]
     df = df.dropna(how="all", axis=0)
     df.fillna("", inplace=True)
     return df] *)
Definition trim_commas_df (df : DataFrame) : DataFrame :=
  fillna (dropna_all (drop_unnamed df)).

Definition has_column (name : string) (df : DataFrame) : bool :=
  existsb (String.eqb name) (columns df).

(** The row labels of a frame are kept beside its columns, one label
    per row.  A frame that has just been built or read is labelled
    0, 1, 2, ... *)
Definition RangeIndex (n : nat) : list cell :=
  map (fun i => CNum (Z.of_nat i)) (seq 0 n).

(** The row labels after [df.dropna(how="all", axis=0)]: the rows that
    stay keep the label they had. *)
Definition dropna_all_index (index : list cell) (df : DataFrame) : list cell :=
  map (fun i => nth i index NaN)
      (filter (fun i => negb (forallb (fun x => isna (nth i (col_cells x) NaN)) df))
              (seq 0 (nrows df))).

(** The row labels of [trim_commas_df df]: dropping columns and filling
    cells leave them alone. *)
Definition trim_commas_df_index (index : list cell) (df : DataFrame) : list cell :=
  dropna_all_index index (drop_unnamed df).

(** ["index" if "index" not in self else "level_0"] *)
Definition default_index_name (df : DataFrame) : string :=
  if has_column "index" df then "level_0" else "index".

(** [df.reset_index()] on a frame whose row index has no name: the
    old row labels become the first column, named [index], or
    [level_0] when the frame already has an [index] column; the name
    being taken is a [ValueError].  The rows of the result are
    labelled 0, 1, 2, ... *)
Definition reset_index (index : list cell) (df : DataFrame)
  : answer (list cell * DataFrame) :=
  let name := default_index_name df in
  if has_column name df then Throw ValueError
  else Return (RangeIndex (length index),
               {| col_name := name; col_cells := index |} :: df).

Definition cell_eqb (a b : cell) : bool :=
  match a, b with
  | NaN, NaN => true
  | CStr s, CStr t => String.eqb s t
  | CNum n, CNum m => Z.eqb n m
  | _, _ => false
  end.

(** Positions of the cells that no earlier cell equals. *)
Fixpoint first_occurrences (seen : list cell) (i : nat) (keys : list cell) : list nat :=
  match keys with
  | [] => []
  | k :: keys' =>
      if existsb (cell_eqb k) seen then first_occurrences seen (S i) keys'
      else i :: first_occurrences (k :: seen) (S i) keys'
  end.

(** [df.drop_duplicates(subset=[key])]: of the rows that agree on the
    key the first stays; a [KeyError] without the key column. *)
Definition drop_duplicates (key : string) (df : DataFrame) : answer DataFrame :=
  keys <~ getcol key df ;;
  Return (map (take_rows (first_occurrences [] 0 keys)) df).

(** [df.drop(columns=[name])]: a [KeyError] without such a column. *)
Definition drop_column (name : string) (df : DataFrame) : answer DataFrame :=
  if has_column name df
  then Return (filter (fun x => negb (String.eqb (col_name x) name)) df)
  else Throw KeyError.

(** [try:
       df = df.reset_index()
       df_norm = df.drop_duplicates(subset=[primary_key])
       df_norm = df.drop(columns=["index"])
       return df_norm
     except KeyError:
       return df]
    The second assignment to [df_norm] starts from [df] again, and
    dropping a column keeps the row labels of [df]. *)
Definition normalize_table (index : list cell) (df : DataFrame) (primary_key : string)
  : answer (list cell * DataFrame) :=
  match reset_index index df with
  | Throw KeyError => Return (index, df)
  | Throw e => Throw e
  | Return (index, df) =>
      match (df_norm <~ drop_duplicates primary_key df ;;
             df_norm <~ drop_column "index" df ;;
             Return df_norm) with
      | Throw KeyError => Return (index, df)
      | Throw e => Throw e
      | Return df_norm => Return (index, df_norm)
      end
  end.

(** A manifest with a repeated key, an empty row and a trailing
    unnamed column. *)
Definition biospecimens : DataFrame :=
  [ {| col_name := "Sample ID";
       col_cells := [CStr "s1"; NaN; CStr "s1"] |};
    {| col_name := "Tissue";
       col_cells := [CStr "lung"; NaN; NaN] |};
    {| col_name := "Unnamed: 2";
       col_cells := [NaN; NaN; NaN] |} ].

End DfUtils.

(** ** configuration.Configuration *)

Module Config.
#[local] Open Scope string_scope.

(** What [yaml.safe_load] can return, [None] apart. *)
#[warnings="-register-all"]
Inductive pyobj : Type :=
| PStr (s : string)
| PInt (n : Z)
| PList (l : list pyobj)
| PDict (d : list (string * pyobj)).

Fixpoint lookup (key : string) (d : list (string * pyobj)) : option pyobj :=
  match d with
  | [] => None
  | (k, v) :: d' => if String.eqb k key then Some v else lookup key d'
  end.

(** [d[key] = v] on a dict: an old key keeps its place. *)
Fixpoint dict_set (key : string) (v : pyobj) (d : list (string * pyobj))
  : list (string * pyobj) :=
  match d with
  | [] => [(key, v)]
  | (k, w) :: d' => if String.eqb k key then (k, v) :: d'
                    else (k, w) :: dict_set key v d'
  end.

(** [o[key]] for a string key. *)
Definition subscript (o : option pyobj) (key : string) : answer pyobj :=
  match o with
  | Some (PDict d) =>
      match lookup key d with
      | Some v => Return v
      | None => Throw KeyError
      end
  | _ => Throw TypeError
  end.

(** The object: both fields start as [None]. *)
Record Configuration : Type := {
  CONFIG_PATH : option string;
  DATA : option pyobj
}.

Definition set_DATA (data : option pyobj) (self : Configuration) : Configuration :=
  {| CONFIG_PATH := CONFIG_PATH self; DATA := data |}.

Definition set_CONFIG_PATH (path : option string) (self : Configuration) : Configuration :=
  {| CONFIG_PATH := path; DATA := DATA self |}.

(** A method call: its outcome and the object afterwards. *)
Definition method (A : Type) : Type := Configuration -> answer A * Configuration.

Definition truthy (s : option string) : bool :=
  match s with
  | Some (String _ _) => true
  | _ => false
  end.

Section Environment.
(** - [environ]: the value of [SCHEMATIC_CONFIG] in [os.environ], if set;
    - [load_yaml path]: what reading and parsing the file gives, [None]
      for a document that does not parse (or is empty);
    - [abspath]: [os.path.abspath(os.path.expanduser(path))]. *)
Variable environ : option string.
Variable load_yaml : string -> answer (option pyobj).
Variable abspath : string -> string.

(** [self.DATA[section][key] = value], the attribute being read by
    [getattr]. *)
Definition set_in_section (getattr : method (option pyobj))
    (section key value : string) : method unit :=
  fun self =>
    let '(r, self) := getattr self in
    match r with
    | Throw e => (Throw e, self)
    | Return data =>
        match subscript data section, data with
        | Return (PDict inner), Some (PDict outer) =>
            (Return tt,
             set_DATA (Some (PDict (dict_set section
                                      (PDict (dict_set key (PStr value) inner))
                                      outer))) self)
        | Return _, _ => (Throw TypeError, self)
        | Throw e, _ => (Throw e, self)
        end
    end.

(** The body of [load_config] once [config_path] is known. *)
Definition load_from (getattr : method (option pyobj)) (config_path : string)
    (syn_master_file_view syn_manifest_file_name : option string)
  : method (option pyobj) :=
  fun self =>
    let config_path := abspath config_path in
    match load_yaml config_path with
    | Throw e => (Throw e, self)
    | Return data =>
        let self := set_DATA data self in
        let self := set_CONFIG_PATH (Some config_path) self in
        match syn_master_file_view, syn_manifest_file_name with
        | Some view, Some name =>
            if truthy syn_master_file_view && truthy syn_manifest_file_name then
              let '(r, self) :=
                set_in_section getattr "synapse" "master_fileview" view self in
              match r with
              | Throw e => (Throw e, self)
              | Return _ =>
                  let '(r, self) :=
                    set_in_section getattr "synapse" "manifest_filename" name self in
                  match r with
                  | Throw e => (Throw e, self)
                  | Return _ => getattr self
                  end
              end
            else getattr self
        | _, _ => getattr self
        end
    end.

(** [load_config], the attribute [DATA] being read by [getattr];
    without a path the one of the environment is loaded, by
    [load_config_from_env]. *)
Definition load_config_with (getattr : method (option pyobj))
    (config_path syn_master_file_view syn_manifest_file_name : option string)
  : method (option pyobj) :=
  fun self =>
    match config_path with
    | None =>
        match environ with
        | Some schematic_config => load_from getattr schematic_config None None self
        | None => (Throw ValueError, self)
        end
    | Some path =>
        load_from getattr path syn_master_file_view syn_manifest_file_name self
    end.

(** [__getattribute__("DATA")]: a value that is [None] triggers the
    loading from the environment, or an [AttributeError] without one.
    [depth] is the room left on the call stack. *)
Fixpoint getattribute_DATA (depth : nat) : method (option pyobj) :=
  fun self =>
    match DATA self with
    | Some value => (Return (Some value), self)
    | None =>
        match environ with
        | Some schematic_config =>
            match depth with
            | O => (Throw RecursionError, self)
            | S depth' =>
                let '(r, self) :=
                  load_from (getattribute_DATA depth') schematic_config None None self in
                match r with
                | Throw e => (Throw e, self)
                | Return _ => (Return (DATA self), self)
                end
            end
        | None => (Throw AttributeError, self)
        end
    end.

Definition load_config (depth : nat)
    (config_path syn_master_file_view syn_manifest_file_name : option string)
  : method (option pyobj) :=
  load_config_with (getattribute_DATA depth)
                   config_path syn_master_file_view syn_manifest_file_name.

(** [__getitem__]: [return self.DATA[key]] *)
Definition getitem_key (depth : nat) (key : string) : method pyobj :=
  fun self =>
    let '(r, self) := getattribute_DATA depth self in
    match r with
    | Throw e => (Throw e, self)
    | Return data => (subscript data key, self)
    end.

(** [try: value = self[key]
     except AttributeError or KeyError: value = default
     return value]
    The clause names the value of [AttributeError or KeyError], which
    is [AttributeError]. *)
Definition get (depth : nat) (key : string) (default : pyobj) : method pyobj :=
  fun self =>
    let '(r, self) := getitem_key depth key self in
    match r with
    | Throw AttributeError => (Return default, self)
    | _ => (r, self)
    end.

End Environment.

(** [Configuration()] *)
Definition fresh : Configuration := {| CONFIG_PATH := None; DATA := None |}.

(** A configuration file to load. *)
Definition synapse_section : list (string * pyobj) :=
  [ ("master_fileview", PStr "syn23643253");
    ("manifest_folder", PStr "manifests") ].

Definition config_sections : list (string * pyobj) :=
  [ ("synapse", PDict synapse_section);
    ("model", PDict [ ("location", PStr "example.model.jsonld") ]) ].

Definition config_yml : pyobj := PDict config_sections.

Definition read_config_yml (path : string) : answer (option pyobj) :=
  if String.eqb path "/app/config.yml" then Return (Some config_yml)
  else if String.eqb path "/app/empty.yml" then Return None
  else Throw OSError.

Definition under_app (path : string) : string := "/app/" ++ path.

End Config.

(** * Properties *)

(** ** Strings *)

Module PyStrFacts.
Import PyStr.
#[local] Open Scope string_scope.

Lemma append_nil_r (s : string) : s ++ "" = s.
Proof. induction s as [|c s IH]; simpl; [reflexivity | now rewrite IH]. Qed.

Lemma append_assoc (s1 s2 s3 : string) : (s1 ++ s2) ++ s3 = s1 ++ s2 ++ s3.
Proof. induction s1 as [|c s1 IH]; simpl; [reflexivity | now rewrite IH]. Qed.

Lemma prefix_split (sep s : string) :
  prefix sep s = true -> s = sep ++ drop (String.length sep) s.
Proof.
  revert s. induction sep as [|a sep IH]; intros s H.
  - reflexivity.
  - destruct s as [|b s]; simpl in H; [discriminate|].
    destruct (ascii_dec a b) as [->|]; [|discriminate].
    simpl. f_equal. now apply IH.
Qed.

Lemma prefix_length (sep s : string) :
  prefix sep s = true -> String.length sep <= String.length s.
Proof.
  revert s. induction sep as [|a sep IH]; intros s H; simpl; [lia|].
  destruct s as [|b s]; simpl in H; [discriminate|].
  destruct (ascii_dec a b); [|discriminate].
  simpl. apply IH in H. lia.
Qed.

Lemma prefix_app (sep x y : string) :
  prefix sep x = true -> prefix sep (x ++ y) = true.
Proof.
  revert x. induction sep as [|a sep IH]; intros x H; [now destruct x, y|].
  destruct x as [|b x]; simpl in H |- *; [discriminate|].
  destruct (ascii_dec a b); [now apply IH | discriminate].
Qed.

Lemma length_append (x y : string) :
  String.length (x ++ y) = String.length x + String.length y.
Proof. induction x as [|c x IH]; simpl; [reflexivity | now rewrite IH]. Qed.

Lemma drop_app (j : nat) (x y : string) :
  j <= String.length x -> drop j (x ++ y) = drop j x ++ y.
Proof.
  revert j. induction x as [|c x IH]; intros j H; simpl in H.
  - replace j with 0 by lia. reflexivity.
  - destruct j as [|j]; [reflexivity|]. simpl. apply IH. lia.
Qed.

Lemma drop_length_app (x y : string) : drop (String.length x) (x ++ y) = y.
Proof. induction x as [|c x IH]; simpl; [reflexivity | exact IH]. Qed.

#[local] Arguments prefix : simpl never.

(** An occurrence found by [contains] starts at some position. *)
Lemma contains_pos (sep x : string) :
  sep <> "" -> contains sep x = true ->
  exists j, j < String.length x /\ prefix sep (drop j x) = true.
Proof.
  intros Hsep. induction x as [|c x IH]; simpl; intros H.
  - destruct sep; [congruence | discriminate].
  - apply orb_true_iff in H as [H|H].
    + exists 0. split; [lia | exact H].
    + destruct (IH H) as (j & Hj & Hp). exists (S j). split; [lia | exact Hp].
Qed.

Lemma free_before (sep cur s : string) :
  sep <> "" ->
  (forall j, j < String.length cur -> prefix sep (drop j (cur ++ s)) = false) ->
  contains sep cur = false.
Proof.
  intros Hsep H. destruct (contains sep cur) eqn:Hc; [|reflexivity].
  destruct (contains_pos _ _ Hsep Hc) as (j & Hj & Hp).
  apply (prefix_app _ _ s) in Hp.
  rewrite <- drop_app in Hp by lia.
  rewrite H in Hp by assumption. discriminate.
Qed.

(** The first piece of a split is free of the separator. *)
Lemma split_go_head_free (sep : string) :
  sep <> "" ->
  forall s cur,
    (forall j, j < String.length cur -> prefix sep (drop j (cur ++ s)) = false) ->
    forall h t, split_go sep 0 cur s = h :: t -> contains sep h = false.
Proof.
  intros Hsep. induction s as [|c s IH]; intros cur Hinv h t; cbn [split_go].
  - intros H. injection H as <- _. now apply (free_before sep cur "").
  - destruct (prefix sep (String c s)) eqn:Hp.
    + intros H. injection H as <- _. now apply (free_before sep cur (String c s)).
    + apply IH. intros j Hj.
      rewrite append_assoc. cbn [append].
      rewrite length_append in Hj. cbn [String.length] in Hj.
      destruct (Nat.eq_dec j (String.length cur)) as [->|Hne].
      * now rewrite drop_length_app.
      * apply Hinv. lia.
Qed.

Lemma split_head_free (sep s h : string) (t : list string) :
  sep <> "" -> split sep s = h :: t -> contains sep h = false.
Proof.
  intros Hsep. unfold split. apply split_go_head_free; [exact Hsep|].
  intros j Hj. simpl in Hj. lia.
Qed.

Lemma split_go_nonempty (sep : string) (skip : nat) (cur s : string) :
  split_go sep skip cur s <> [].
Proof.
  revert skip cur. induction s as [|c s IH]; intros skip cur; simpl.
  - discriminate.
  - destruct skip; [|apply IH].
    destruct (prefix sep (String c s)); [discriminate | apply IH].
Qed.

Lemma join_cons (sep x : string) (l : list string) :
  l <> [] -> join sep (x :: l) = x ++ sep ++ join sep l.
Proof. destruct l; [congruence | reflexivity]. Qed.

(** Joining the pieces of a split restores the text that was split. *)
Lemma join_split_go (sep : string) :
  sep <> "" ->
  forall s skip cur, skip <= String.length s ->
    join sep (split_go sep skip cur s) = cur ++ drop skip s.
Proof.
  intros Hsep. induction s as [|c s IH]; intros skip cur Hle; simpl in *.
  - replace skip with 0 by lia. simpl. now rewrite append_nil_r.
  - destruct skip as [|k].
    + destruct (prefix sep (String c s)) eqn:Hp.
      * rewrite join_cons by apply split_go_nonempty.
        pose proof (prefix_length _ _ Hp) as Hlen.
        pose proof (prefix_split _ _ Hp) as Hs.
        destruct sep as [|a sep]; [congruence|].
        simpl in Hlen, Hs |- *. rewrite Nat.sub_0_r.
        rewrite IH by lia. simpl.
        injection Hs as Ha Hs. subst a. now rewrite <- Hs.
      * rewrite IH by lia. simpl. now rewrite append_assoc.
    + apply IH. lia.
Qed.

Lemma join_split (sep s : string) : sep <> "" -> join sep (split sep s) = s.
Proof.
  intros Hsep. unfold split. rewrite join_split_go by (trivial; lia).
  reflexivity.
Qed.

(** A text free of the separator is its own single piece. *)
Lemma split_go_absent (sep : string) :
  forall s cur, contains sep s = false -> split_go sep 0 cur s = [cur ++ s].
Proof.
  induction s as [|c s IH]; intros cur H; simpl in *.
  - now rewrite append_nil_r.
  - apply orb_false_iff in H as [Hp Hc]. rewrite Hp.
    rewrite IH by assumption. now rewrite append_assoc.
Qed.

Lemma split_absent (sep s : string) : contains sep s = false -> split sep s = [s].
Proof. intros H. unfold split. now rewrite split_go_absent. Qed.

(** *** Stripping *)

Lemma lstrip_all_space (x : string) : all_space x = true -> lstrip x = "".
Proof.
  induction x as [|c x IH]; simpl; [reflexivity|].
  intros H. apply andb_true_iff in H as [Hc Hx]. rewrite Hc. now apply IH.
Qed.

Lemma rstrip_all_space (x : string) : all_space x = true -> rstrip x = "".
Proof.
  induction x as [|c x IH]; simpl; [reflexivity|].
  intros H. apply andb_true_iff in H as [Hc Hx]. now rewrite IH, Hc.
Qed.

Lemma lstrip_app_space (l x : string) :
  all_space l = true -> lstrip (l ++ x) = lstrip x.
Proof.
  induction l as [|c l IH]; simpl; [reflexivity|].
  intros H. apply andb_true_iff in H as [Hc Hl]. rewrite Hc. now apply IH.
Qed.

Lemma lstrip_app (x y : string) :
  all_space x = false -> lstrip (x ++ y) = lstrip x ++ y.
Proof.
  induction x as [|c x IH]; simpl; [discriminate|].
  destruct (is_space c); simpl; [exact IH | reflexivity].
Qed.

Lemma rstrip_app_space (x r : string) :
  all_space r = true -> rstrip (x ++ r) = rstrip x.
Proof.
  intros Hr. induction x as [|c x IH]; simpl.
  - now apply rstrip_all_space.
  - now rewrite IH.
Qed.


(** Whitespace around a text does not survive [strip]. *)
Lemma strip_blanks (l core r : string) :
  all_space l = true -> all_space r = true ->
  strip (l ++ core ++ r) = strip core.
Proof.
  intros Hl Hr. unfold strip. rewrite lstrip_app_space by exact Hl.
  destruct (all_space core) eqn:Hc.
  - rewrite lstrip_app_space by exact Hc.
    rewrite (lstrip_all_space r Hr), (lstrip_all_space core Hc). reflexivity.
  - rewrite lstrip_app by exact Hc. now apply rstrip_app_space.
Qed.

End PyStrFacts.

(** ** parse_validation_rules *)

Module RuleTokens.
#[local] Open Scope string_scope.

(** C7, amended. For a list holding one rule string, as the parser's
    docstring prescribes, the parser returns exactly the
    [::]-delimited tokens of that string, in order, and nothing of
    the string is lost: joined again with [::] the tokens give the
    rule string back. *)
Theorem parse_validation_rules_single (rule : string) :
  parse_validation_rules [rule] = PyStr.split "::" rule /\
  PyStr.join "::" (parse_validation_rules [rule]) = rule.
Proof.
  assert (E : parse_validation_rules [rule] = PyStr.split "::" rule).
  { unfold parse_validation_rules.
    destruct (PyStr.contains "::" rule) eqn:Hc; [reflexivity|].
    symmetry. now apply PyStrFacts.split_absent. }
  split; [exact E|].
  rewrite E. apply PyStrFacts.join_split. discriminate.
Qed.

(** C7 as stated fails: with a second rule string in the list, the
    tokens of the first are returned and the second string is lost. *)
Lemma parse_validation_rules_drops_rest :
  In "c" ["a::b"; "c"] /\
  In "c" (PyStr.split "::" "c") /\
  parse_validation_rules ["a::b"; "c"] = ["a"; "b"] /\
  ~ In "c" (parse_validation_rules ["a::b"; "c"]).
Proof.
  repeat split.
  - simpl. tauto.
  - simpl. tauto.
  - simpl. intros [H|[H|[]]]; discriminate.
Qed.

End RuleTokens.

(** ** The result monad and loops *)

Lemma bind_Ok {A B : Type} (r : result A) (k : A -> result B) (b : B) :
  bind r k = Ok b -> exists a, r = Ok a /\ k a = Ok b.
Proof. destruct r as [a|e]; simpl; [eauto | discriminate]. Qed.

Ltac bind_inv H :=
  let a := fresh "a" in
  let Ha := fresh "Ha" in
  apply bind_Ok in H; destruct H as (a & Ha & H).

Lemma foldM_Ok_all {A B : Type} (f : B -> A -> result B) (l : list A) :
  (forall a, In a l -> forall b, exists b', f b a = Ok b') ->
  forall b, exists b', foldM f l b = Ok b'.
Proof.
  induction l as [|a l IH]; intros Hf b; simpl; [eauto|].
  destruct (Hf a (or_introl eq_refl) b) as [b' ->].
  apply IH. intros a' Ha'. apply Hf. now right.
Qed.

Lemma foldM_Raise {A B : Type} (f : B -> A -> result B) (l : list A) (e : exn) :
  forall b, foldM f l b = Raise e -> exists a b', In a l /\ f b' a = Raise e.
Proof.
  induction l as [|a l IH]; intros b H; simpl in H; [discriminate|].
  destruct (f b a) as [b1|e1] eqn:Hf.
  - destruct (IH _ H) as (a' & b' & Hin & Hr). exists a', b'. split; [now right | exact Hr].
  - injection H as ->. exists a, b. split; [now left | exact Hf].
Qed.


Lemma enumerate_nth_error {A : Type} (l : list A) (k i : nat) (a : A) :
  In (i, a) (combine (seq k (length l)) l) -> k <= i /\ nth_error l (i - k) = Some a.
Proof.
  revert k. induction l as [|x l IH]; intros k H; simpl in H; [contradiction|].
  destruct H as [H|H].
  - injection H as <- <-. rewrite Nat.sub_diag. split; [lia | reflexivity].
  - apply IH in H as [Hle Hn]. split; [lia|].
    replace (i - k) with (S (i - S k)) by lia. exact Hn.
Qed.


(** ** Normalisation of the manifest *)

Module ManifestFacts.
Import Manifest Blanks.
#[local] Open Scope string_scope.

(** What [fillna] followed by the trimming does to one column. *)
Lemma trim_fillna (m : DataFrame) :
  trim (fillna m) =
  map (fun x =>
         let filled := map fillna_cell (col_cells x) in
         if existsb is_str filled
         then {| col_name := col_name x; col_cells := map str_strip_cell filled |}
         else {| col_name := col_name x; col_cells := filled |}) m.
Proof.
  unfold trim, fillna. rewrite map_map. apply map_ext. intros x.
  unfold dtype_is_object. simpl. now destruct (existsb _ _).
Qed.




Lemma nrows_normal (m : DataFrame) : nrows (trim (fillna m)) = nrows m.
Proof.
  rewrite trim_fillna. destruct m as [|x m]; [reflexivity|].
  cbn [map nrows]. cbv zeta.
  destruct (existsb _ _); cbn [col_cells]; now rewrite ?length_map.
Qed.


End ManifestFacts.

(** ** validateModelManifest *)

Module ValidationFacts.
Import Manifest Validation Blanks.
#[local] Open Scope string_scope.

Lemma parse_error_row (i : nat) (str_e : string) (d : Diagnostic) :
  parse_error i str_e = Ok d -> errorRow d = i + 2.
Proof.
  unfold parse_error. intros H.
  bind_inv H. bind_inv H. bind_inv H. bind_inv H.
  injection H as <-. reflexivity.
Qed.


Section Validator.
Variable schema : Type.
Variable truthy : schema -> bool.
Variable get_JSONSchema_requirements : string -> string -> schema.
Variable check_schema : schema -> bool.
Variable iter_errors : schema -> annotation -> list string.
Variable best_match : string -> list string -> string.

#[local] Abbreviation validate := (validate schema check_schema iter_errors best_match).
#[local] Abbreviation validate_record :=
  (validate_record schema check_schema iter_errors best_match).
#[local] Abbreviation validateModelManifest :=
  (validateModelManifest schema truthy get_JSONSchema_requirements
                         check_schema iter_errors best_match).
#[local] Abbreviation schema_in_use := (schema_in_use schema truthy get_JSONSchema_requirements).
#[local] Abbreviation violating_rows := (violating_rows schema iter_errors).

(** What one record adds does not depend on what was collected before. *)
Lemma validate_record_acc (s : schema) (acc : list Diagnostic) (ia : nat * annotation) :
  validate_record s acc ia = (ds <- validate_record s [] ia ;; Ok (acc ++ ds)%list).
Proof.
  destruct ia as [i a]. unfold Validation.validate_record.
  destruct (validate a s) as [|str_e|]; simpl.
  - now rewrite app_nil_r.
  - destruct (parse_error i str_e); reflexivity.
  - reflexivity.
Qed.

(** The loop returns the diagnostics of the records, one record
    after the other. *)
Lemma loop_Ok (s : schema) (l : list (nat * annotation)) :
  forall acc ds,
    foldM (validate_record s) l acc = Ok ds ->
    exists dss,
      Forall2 (fun ia d => validate_record s [] ia = Ok d) l dss /\
      ds = (acc ++ concat dss)%list.
Proof.
  induction l as [|ia l IH]; intros acc ds H; simpl in H.
  - injection H as <-. exists []. split; [constructor | now rewrite app_nil_r].
  - rewrite validate_record_acc in H.
    destruct (validate_record s [] ia) as [d|e] eqn:Hd; simpl in H; [|discriminate].
    apply IH in H as (dss & HF & ->).
    exists (d :: dss). split; [now constructor|].
    simpl. now rewrite app_assoc.
Qed.

(** A record adds nothing when it has no violation, and one
    diagnostic, carrying its row, when it has some. *)
Lemma validate_record_cases (s : schema) (i : nat) (a : annotation)
    (dl : list Diagnostic) :
  validate_record s [] (i, a) = Ok dl ->
  (iter_errors s a = [] /\ dl = []) \/
  (exists e es d, iter_errors s a = e :: es /\
                  validate a s = RaisesValidationError (best_match e es) /\
                  parse_error i (best_match e es) = Ok d /\ dl = [d]).
Proof.
  unfold Validation.validate_record, Validation.validate.
  destruct (check_schema s); [|discriminate].
  destruct (iter_errors s a) as [|e es].
  - intros H. injection H as <-. now left.
  - intros H. bind_inv H. injection H as <-.
    right. exists e, es, a0. auto.
Qed.

Lemma rows_of_loop (s : schema) (l : list (nat * annotation)) (dss : list (list Diagnostic)) :
  Forall2 (fun ia d => validate_record s [] ia = Ok d) l dss ->
  map errorRow (concat dss) =
  map (fun ia => fst ia + 2)
      (filter (fun ia => match iter_errors s (snd ia) with
                         | [] => false
                         | _ :: _ => true
                         end) l).
Proof.
  induction 1 as [|[i a] dl l dss Hd _ IH]; [reflexivity|].
  simpl. rewrite map_app, IH.
  apply validate_record_cases in Hd as [[He ->]|(e & es & d & He & _ & Hp & ->)];
    rewrite He; simpl; [reflexivity|].
  now rewrite (parse_error_row _ _ _ Hp).
Qed.

(** C1, amended. The loop goes through every record and does not
    stop at a failing one: whenever the call returns, it returns
    one diagnostic for each record that violates at least one
    constraint, in record order, and none for the others. A record
    violating several constraints still contributes a single
    diagnostic, for the violation the validator raises. *)
Theorem validateModelManifest_one_per_violating_record
    (manifest : DataFrame) (rootNode : string) (jsonSchema : option schema)
    (ds : list Diagnostic) :
  validateModelManifest manifest rootNode jsonSchema = Ok ds ->
  map errorRow ds =
  violating_rows (schema_in_use rootNode jsonSchema) (annotations_of manifest).
Proof.
  unfold Validation.validateModelManifest. intros H.
  apply loop_Ok in H as (dss & HF & ->). simpl.
  now apply rows_of_loop.
Qed.

Lemma in_loop (s : schema) (l : list (nat * annotation)) (dss : list (list Diagnostic))
    (d : Diagnostic) :
  Forall2 (fun ia d => validate_record s [] ia = Ok d) l dss ->
  In d (concat dss) ->
  exists i a e es,
    In (i, a) l /\ iter_errors s a = e :: es /\
    validate a s = RaisesValidationError (best_match e es) /\
    parse_error i (best_match e es) = Ok d.
Proof.
  induction 1 as [|[i a] dl l dss Hd _ IH]; simpl; [contradiction|].
  rewrite in_app_iff. intros [Hin|Hin].
  - apply validate_record_cases in Hd
      as [[_ ->]|(e & es & d' & He & Hv & Hp & ->)]; [contradiction|].
    destruct Hin as [<-|[]]. exists i, a, e, es. auto.
  - destruct (IH Hin) as (i' & a' & e & es & Hl & Hrest).
    exists i', a', e, es. auto.
Qed.

(** Every returned diagnostic is the parse of the error raised for
    some record of the manifest, at that record's position. *)
Lemma diagnostic_origin
    (manifest : DataFrame) (rootNode : string) (jsonSchema : option schema)
    (ds : list Diagnostic) (d : Diagnostic) :
  validateModelManifest manifest rootNode jsonSchema = Ok ds ->
  In d ds ->
  exists i annotation str_e,
    nth_error (annotations_of manifest) i = Some annotation /\
    validate annotation (schema_in_use rootNode jsonSchema)
      = RaisesValidationError str_e /\
    parse_error i str_e = Ok d.
Proof.
  unfold Validation.validateModelManifest. intros H Hin.
  apply loop_Ok in H as (dss & HF & ->). simpl in Hin.
  destruct (in_loop _ _ _ _ HF Hin) as (i & a & e & es & Hl & _ & Hv & Hp).
  apply enumerate_nth_error in Hl as [_ Hn]. rewrite Nat.sub_0_r in Hn.
  exists i, a, (best_match e es). auto.
Qed.

(** C5. A diagnostic produced from the record at position [i]
    (counted from 0) carries row number [i + 2]; every returned
    row number is at least 2. *)
Theorem validateModelManifest_row_numbers
    (manifest : DataFrame) (rootNode : string) (jsonSchema : option schema)
    (ds : list Diagnostic) (d : Diagnostic) :
  validateModelManifest manifest rootNode jsonSchema = Ok ds ->
  In d ds ->
  2 <= errorRow d /\
  exists i annotation str_e,
    nth_error (annotations_of manifest) i = Some annotation /\
    validate annotation (schema_in_use rootNode jsonSchema)
      = RaisesValidationError str_e /\
    parse_error i str_e = Ok d /\
    errorRow d = i + 2.
Proof.
  intros H Hin.
  destruct (diagnostic_origin _ _ _ _ _ H Hin) as (i & a & e & Hn & Hv & Hp).
  pose proof (parse_error_row _ _ _ Hp) as Hr.
  split; [lia|]. exists i, a, e. auto.
Qed.

(** The call returns as soon as the schema is well formed and the
    error of every failing record can be parsed. *)
Lemma validateModelManifest_returns
    (manifest : DataFrame) (rootNode : string) (jsonSchema : option schema) :
  check_schema (schema_in_use rootNode jsonSchema) = true ->
  (forall i annotation str_e,
      nth_error (annotations_of manifest) i = Some annotation ->
      validate annotation (schema_in_use rootNode jsonSchema)
        = RaisesValidationError str_e ->
      exists d, parse_error i str_e = Ok d) ->
  exists ds, validateModelManifest manifest rootNode jsonSchema = Ok ds.
Proof.
  intros Hs Hparse. unfold Validation.validateModelManifest.
  apply foldM_Ok_all. intros [i a] Hin acc.
  apply enumerate_nth_error in Hin as [_ Hn]. rewrite Nat.sub_0_r in Hn.
  unfold Validation.validate_record.
  destruct (validate a (schema_in_use rootNode jsonSchema)) as [|str_e|] eqn:Hv.
  - eauto.
  - destruct (Hparse i a str_e Hn Hv) as [d ->]. simpl. eauto.
  - unfold Validation.validate in Hv. rewrite Hs in Hv.
    destruct (iter_errors _ a); discriminate.
Qed.





End Validator.
End ValidationFacts.

(** ** Runs of the manifest check *)

Module FixtureFacts.
Import Manifest Validation Fixture.
#[local] Open Scope string_scope.

Lemma run_patients :
  run patients patient_schema = Ok [unknown_diagnosis; missing_stage].
Proof. vm_compute. reflexivity. Qed.

(** C1 as stated fails: the record of row 3 violates two constraints
    (diagnosis and stage are both outside their enumerations) and
    contributes one diagnostic, not two. *)
Lemma two_violations_one_diagnostic :
  nth_error (annotations_of patients) 1
    = Some [("Diagnosis", JStr "Unknown"); ("Stage", JStr "V")] /\
  length (iter_errors patient_schema
            [("Diagnosis", JStr "Unknown"); ("Stage", JStr "V")]) = 2 /\
  run patients patient_schema = Ok [unknown_diagnosis; missing_stage] /\
  length (filter (fun d => Nat.eqb (errorRow d) 3) [unknown_diagnosis; missing_stage]) = 1.
Proof. vm_compute. repeat split. Qed.

Lemma one_per_violating_record_witness :
  map errorRow [unknown_diagnosis; missing_stage] =
  violating_rows schema iter_errors
    (schema_in_use schema truthy get_JSONSchema_requirements
                   "Patient" (Some patient_schema))
    (annotations_of patients).
Proof.
  apply (ValidationFacts.validateModelManifest_one_per_violating_record
           schema truthy get_JSONSchema_requirements check_schema
           iter_errors best_match patients "Patient" (Some patient_schema)).
  vm_compute. reflexivity.
Defined.

(** C2: a violation whose message quotes nothing ends the call with
    an [IndexError]: the record of row 2 holds the number 5 under a
    lower bound of 10. *)
Theorem numeric_violation_raises :
  iter_errors age_schema [("Age", JNum 5)] <> [] /\
  run ages age_schema = Raise IndexError.
Proof. vm_compute. split; [discriminate | reflexivity]. Qed.

(** C4: an enumeration mismatch whose supplied value carries a
    bracketed stretch is reported with that stretch as its allowed
    values, not with the enumeration of the field. *)
Theorem bracketed_value_allowed_values :
  run bracketed patient_schema =
  Ok [ {| errorRow := 2; errorTerms := PyString "Diagnosis";
          errorValue := "Cancer [stage 2]"; allowedValues := ["stage 2"] |} ] /\
  ["stage 2"] <> ["Cancer"; "Healthy"].
Proof. vm_compute. split; [reflexivity | discriminate]. Qed.

Lemma row_numbers_witness :
  2 <= errorRow missing_stage /\
  exists i annotation str_e,
    nth_error (annotations_of patients) i = Some annotation /\
    validate schema check_schema iter_errors best_match annotation
      (schema_in_use schema truthy get_JSONSchema_requirements
                     "Patient" (Some patient_schema))
      = RaisesValidationError str_e /\
    parse_error i str_e = Ok missing_stage /\
    errorRow missing_stage = i + 2.
Proof.
  apply (ValidationFacts.validateModelManifest_row_numbers
           schema truthy get_JSONSchema_requirements check_schema
           iter_errors best_match patients "Patient" (Some patient_schema)
           [unknown_diagnosis; missing_stage] missing_stage).
  - vm_compute. reflexivity.
  - simpl. tauto.
Defined.





End FixtureFacts.

(** ** Graphs, reachability and orderings *)

Module GraphFacts.
Import Graph.

Lemma mem_In (x : label) (l : list label) : mem x l = true <-> In x l.
Proof.
  unfold mem. rewrite existsb_exists. split.
  - intros (y & Hy & He). apply String.eqb_eq in He. now subst.
  - intros H. exists x. split; [exact H | apply String.eqb_refl].
Qed.

Lemma mem_false (x : label) (l : list label) : mem x l = false <-> ~ In x l.
Proof.
  rewrite <- mem_In. destruct (mem x l); split; congruence.
Qed.

Lemma outEdges_edge (g : SchemaGraph) (kind : string) (u v : label) :
  In v (outEdges g kind u) <-> edge g kind u v.
Proof.
  unfold outEdges, edge. rewrite in_map_iff. split.
  - intros ([[a b] k] & Hv & Hin). simpl in Hv. subst b.
    apply filter_In in Hin as [Hin Hb]. simpl in Hb.
    apply andb_true_iff in Hb as [Ha Hk].
    apply String.eqb_eq in Ha, Hk. now subst.
  - intros H. exists (u, v, kind). split; [reflexivity|].
    apply filter_In. split; [exact H|]. simpl.
    now rewrite !String.eqb_refl.
Qed.

Lemma before_beforeb (x y : label) (l : list label) :
  before x y l <-> beforeb x y l = true.
Proof.
  split.
  - intros (l1 & l2 & l3 & ->). induction l1 as [|a l1 IH]; simpl.
    + rewrite String.eqb_refl. simpl. apply orb_true_iff. left.
      apply mem_In. apply in_or_app. right. now left.
    + rewrite IH. apply orb_true_r.
  - induction l as [|a l IH]; simpl; [discriminate|].
    intros H. apply orb_true_iff in H as [H|H].
    + apply andb_true_iff in H as [Ha Hy].
      apply String.eqb_eq in Ha. subst a.
      apply mem_In, in_split in Hy as (l2 & l3 & ->).
      now exists [], l2, l3.
    + destruct (IH H) as (l1 & l2 & l3 & ->).
      now exists (a :: l1), l2, l3.
Qed.

Section Reach.
Variable g : SchemaGraph.
Variable kind : string.

Lemma reach_trans (a b c : label) :
  reach g kind a b -> reach g kind b c -> reach g kind a c.
Proof.
  induction 1 as [|u v w He _ IH]; [trivial|].
  intros Hc. eapply reach_step; eauto.
Qed.

Lemma reach_edge (a b : label) : edge g kind a b -> reach g kind a b.
Proof. intros H. eapply reach_step; [exact H | apply reach_refl]. Qed.

Lemma reach_snoc (a b c : label) :
  reach g kind a b -> edge g kind b c -> reach g kind a c.
Proof. intros H He. eapply reach_trans; [exact H | now apply reach_edge]. Qed.

Lemma reach_node (a b : label) :
  well_formed g -> In a (nodes g) -> reach g kind a b -> In b (nodes g).
Proof.
  intros Hwf Ha H. induction H as [|u v w He _ IH]; [exact Ha|].
  apply IH. now apply (Hwf u v kind).
Qed.

Lemma acyclic_from_reach (root u : label) :
  acyclic_from g kind root -> reach g kind root u -> acyclic_from g kind u.
Proof.
  intros Hac Hr x y Hx. apply Hac. eapply reach_trans; eauto.
Qed.

(** A rank that drops along every edge rules cycles out. *)
Lemma ranked_acyclic (rank : label -> nat) (root : label) :
  (forall u v, edge g kind u v -> rank v < rank u) ->
  acyclic_from g kind root.
Proof.
  intros Hrank x y _ He Hr.
  assert (Hle : forall a b, reach g kind a b -> rank b <= rank a).
  { induction 1 as [|u v w Huv _ IH]; [lia|].
    apply Hrank in Huv. lia. }
  apply Hrank in He. apply Hle in Hr. lia.
Qed.

Lemma topo_tail (l1 l2 : list label) : topo g kind (l1 ++ l2) -> topo g kind l2.
Proof.
  induction l1 as [|a l1 IH]; simpl; [trivial|].
  intros H. inversion H. auto.
Qed.

Lemma topo_NoDup (l : list label) : topo g kind l -> NoDup l.
Proof. induction 1; constructor; assumption. Qed.

(** In such a list the successors of a node all come after it. *)
Lemma topo_after (l1 l2 : list label) (x y : label) :
  topo g kind (l1 ++ x :: l2) -> edge g kind x y -> In y l2.
Proof.
  intros H He. apply topo_tail in H. inversion H; auto.
Qed.

Lemma topo_closed (l : list label) (x y : label) :
  topo g kind l -> In x l -> edge g kind x y -> In y l.
Proof.
  intros H Hx He. apply in_split in Hx as (l1 & l2 & ->).
  apply in_or_app. right. right. eapply topo_after; eauto.
Qed.

Lemma topo_reach (l : list label) (x y : label) :
  topo g kind l -> In x l -> reach g kind x y -> In y l.
Proof.
  intros H Hx Hr. induction Hr as [|u v w He _ IH]; [exact Hx|].
  apply IH. eapply topo_closed; eauto.
Qed.

(** A list that puts every node ahead of its successors holds no
    node of a cycle. *)
Lemma topo_acyclic (l : list label) (x y : label) :
  topo g kind l -> In x l -> edge g kind x y -> ~ reach g kind y x.
Proof.
  intros H Hx He Hr. apply in_split in Hx as (l1 & l2 & ->).
  apply topo_tail in H. inversion H as [|? ? Ht Hnotin Hsucc]; subst.
  apply Hnotin. exact (topo_reach l2 y x Ht (Hsucc y He) Hr).
Qed.

End Reach.
End GraphFacts.

(** ** The depth-first resolver *)

Module DepthFirstFacts.
Import Graph GraphFacts SchemaGenerator.

Section Visit.
Variable g : SchemaGraph.
Variable kind : string.

#[local] Abbreviation apart path done :=
  (forall x : label, In x path -> ~ In x done).

(** What a visit of [u] that returns has done: [done] has grown, by
    nodes reachable from [u] only, into a list that still puts
    every node ahead of its successors and now holds [u]. *)
#[local] Abbreviation visited_from step path :=
  (forall (done : list label) (u : label) (done' : list label),
     topo g kind done -> apart path done -> step done u = Ok done' ->
     topo g kind done' /\ In u done' /\ apart path done' /\
     incl done done' /\
     (forall x, In x done' -> In x done \/ reach g kind u x)).

Lemma visit_children (step : list label -> label -> result (list label))
    (path : list label) :
  visited_from step path ->
  forall cs done done',
    topo g kind done -> apart path done -> foldM step cs done = Ok done' ->
    topo g kind done' /\ (forall c, In c cs -> In c done') /\
    apart path done' /\ incl done done' /\
    (forall x, In x done' -> In x done \/ exists c, In c cs /\ reach g kind c x).
Proof.
  intros Hstep. induction cs as [|c cs IH]; intros done done' Ht Ha H; simpl in H.
  - injection H as <-. repeat split; auto using incl_refl. contradiction.
  - destruct (step done c) as [d1|] eqn:Hc; [|discriminate].
    destruct (Hstep _ _ _ Ht Ha Hc) as (Ht1 & Hin1 & Ha1 & Hi1 & Ho1).
    destruct (IH _ _ Ht1 Ha1 H) as (Ht2 & Hin2 & Ha2 & Hi2 & Ho2).
    repeat split; auto.
    + intros c' [<-|Hc']; auto.
    + eapply incl_tran; eauto.
    + intros x Hx. destruct (Ho2 x Hx) as [Hx1|(c' & Hc' & Hr)].
      * destruct (Ho1 x Hx1) as [|Hr]; [now left|].
        right. exists c. split; [now left | exact Hr].
      * right. exists c'. split; [now right | exact Hr].
Qed.

Lemma visit_sound (fuel : nat) :
  forall path, visited_from (visit g kind fuel path) path.
Proof.
  induction fuel as [|fuel IH]; intros path done u done' Ht Ha H; simpl in H;
    [discriminate|].
  destruct (mem u done) eqn:Hd.
  { injection H as <-. apply mem_In in Hd.
    repeat split; auto using incl_refl. }
  destruct (mem u path) eqn:Hp; [discriminate|].
  apply mem_false in Hd, Hp.
  bind_inv H. injection H as <-.
  assert (Ha' : apart (u :: path) done).
  { intros x [<-|Hx]; auto. }
  destruct (visit_children _ _ (IH (u :: path)) _ _ _ Ht Ha' Ha0)
    as (Ht1 & Hin1 & Ha1 & Hi1 & Ho1).
  repeat split.
  - constructor; [exact Ht1 | apply Ha1; now left |].
    intros y Hy. apply Hin1. now apply outEdges_edge.
  - now left.
  - intros x Hx [->|Hx']; [contradiction|].
    apply (Ha1 x); [now right | exact Hx'].
  - intros x Hx. right. now apply Hi1.
  - intros x [<-|Hx]; [right; apply reach_refl|].
    destruct (Ho1 x Hx) as [|(c & Hc & Hr)]; [now left|].
    right. eapply reach_step; [|exact Hr]. now apply outEdges_edge.
Qed.

(** With no cycle below [u] and fuel for the nodes not yet on the
    path, the visit returns. *)
Lemma visit_total (Hwf : well_formed g) (fuel : nat) :
  forall path done u,
    In u (nodes g) -> NoDup path -> incl path (nodes g) ->
    length (nodes g) < fuel + length path ->
    (forall x, In x path -> exists y, edge g kind x y /\ reach g kind y u) ->
    acyclic_from g kind u ->
    exists done', visit g kind fuel path done u = Ok done'.
Proof.
  induction fuel as [|fuel IH]; intros path done u Hu Hnd Hincl Hlen Hanc Hac.
  - pose proof (NoDup_incl_length Hnd Hincl). simpl in Hlen. lia.
  - simpl. destruct (mem u done); [eauto|].
    destruct (mem u path) eqn:Hp.
    { apply mem_In, Hanc in Hp as (y & He & Hr).
      exfalso. exact (Hac u y (reach_refl _ _ _) He Hr). }
    apply mem_false in Hp.
    destruct (foldM_Ok_all (visit g kind fuel (u :: path))
                (outEdges g kind u)) with (b := done) as [d Hd].
    + intros c Hc done0. apply outEdges_edge in Hc.
      apply IH.
      * now apply (Hwf u c kind).
      * now constructor.
      * intros x [<-|Hx]; auto.
      * simpl. lia.
      * intros x [<-|Hx].
        -- exists c. split; [exact Hc | apply reach_refl].
        -- destruct (Hanc x Hx) as (y & He & Hr).
           exists y. split; [exact He|]. eapply reach_snoc; eauto.
      * eapply acyclic_from_reach; [exact Hac | now apply reach_edge].
    + rewrite Hd. simpl. eauto.
Qed.

(** The only failure of a visit is the detection of a cycle. *)
Lemma visit_raises (fuel : nat) :
  forall path done u e,
    visit g kind fuel path done u = Raise e -> e = CycleDetected.
Proof.
  induction fuel as [|fuel IH]; intros path done u e H; simpl in H.
  - now injection H as <-.
  - destruct (mem u done); [discriminate|].
    destruct (mem u path); [now injection H as <-|].
    destruct (foldM _ _ _) as [d|e'] eqn:Hf; simpl in H; [discriminate|].
    injection H as ->.
    apply foldM_Raise in Hf as (c & d & _ & Hr). eapply IH; eauto.
Qed.

End Visit.

Lemma filter_others (root : label) (l : list label) :
  ~ In root l -> filter (fun x => negb (String.eqb x root)) l = l.
Proof.
  induction l as [|a l IH]; simpl; [reflexivity|].
  intros H. destruct (String.eqb_spec a root) as [->|Hne]; simpl.
  - exfalso. apply H. now left.
  - rewrite IH; [reflexivity|]. intros Hin. apply H. now right.
Qed.

(** The resolver returns, on an acyclic reachable subgraph, the nodes
    reachable from the root other than the root, each ahead of its
    successors. *)
Lemma get_descendants_by_edge_type_spec (g : SchemaGraph) (root : label)
    (kind : string) :
  well_formed g -> In root (nodes g) -> acyclic_from g kind root ->
  exists rest,
    get_descendants_by_edge_type g root kind = Ok rest /\
    topo g kind (root :: rest) /\
    (forall x, In x rest <-> reach g kind root x /\ x <> root).
Proof.
  intros Hwf Hroot Hac. unfold get_descendants_by_edge_type, nodeExists.
  apply mem_In in Hroot as Hm. rewrite Hm.
  destruct (visit_total g kind Hwf (S (length (nodes g))) [] [] root)
    as [d Hd]; auto.
  - constructor.
  - intros x [].
  - simpl. lia.
  - intros x [].
  - rewrite Hd. simpl.
    destruct (visit_sound g kind (S (length (nodes g))) [] [] root d)
      as (Ht & Hin & _ & _ & Ho); auto.
    { constructor. }
    simpl in Hd. bind_inv Hd. injection Hd as <-.
    inversion Ht as [|r rest Ht' Hnotin Hsucc]; subst.
    cbn [filter]. rewrite String.eqb_refl. cbn [negb].
    rewrite filter_others by exact Hnotin.
    exists a. split; [reflexivity|]. split; [exact Ht|].
    intros x. split.
    + intros Hx. split.
      * destruct (Ho x (or_intror Hx)) as [[]|]; assumption.
      * intros ->. contradiction.
    + intros [Hr Hne].
      destruct (topo_reach g kind _ _ _ Ht (or_introl eq_refl) Hr) as [<-|];
        [congruence | assumption].
Qed.

(** The resolver fails with [CycleDetected] exactly on a cycle in the
    reachable subgraph, and with [NotFound] on a missing root. *)
Lemma get_descendants_by_edge_type_cycle (g : SchemaGraph) (root : label)
    (kind : string) :
  well_formed g -> In root (nodes g) ->
  get_descendants_by_edge_type g root kind = Raise CycleDetected <->
  ~ acyclic_from g kind root.
Proof.
  intros Hwf Hroot. split.
  - intros H Hac.
    destruct (get_descendants_by_edge_type_spec g root kind Hwf Hroot Hac)
      as (rest & Hrest & _).
    congruence.
  - intros Hcyc. unfold get_descendants_by_edge_type, nodeExists.
    apply mem_In in Hroot as Hm. rewrite Hm.
    destruct (visit g kind (S (length (nodes g))) [] [] root) as [d|e] eqn:Hv.
    + exfalso. apply Hcyc.
      destruct (visit_sound g kind (S (length (nodes g))) [] [] root d)
        as (Ht & Hin & _); auto.
      { constructor. }
      intros x y Hx He. eapply topo_acyclic; [exact Ht | | exact He].
      eapply topo_reach; eauto.
    + simpl. now rewrite (visit_raises g kind _ _ _ _ _ Hv).
Qed.

Lemma get_descendants_by_edge_type_missing (g : SchemaGraph) (root : label)
    (kind : string) :
  ~ In root (nodes g) -> get_descendants_by_edge_type g root kind = Raise NotFound.
Proof.
  intros H. unfold get_descendants_by_edge_type, nodeExists.
  apply mem_false in H. now rewrite H.
Qed.

End DepthFirstFacts.

(** ** getOrderedModelNodes *)

Module OrderedNodesFacts.
Import Graph GraphFacts MetadataModel.

Lemma getOrderedModelNodes_spec (self : MetadataModel) (root : label)
    (kind : string) :
  well_formed (schema_nx (se self)) ->
  In root (nodes (schema_nx (se self))) ->
  acyclic_from (schema_nx (se self)) kind root ->
  exists rest,
    call (getOrderedModelNodes root kind) self = Ok (rev rest) /\
    topo (schema_nx (se self)) kind (root :: rest) /\
    (forall x, In x rest <-> reach (schema_nx (se self)) kind root x /\ x <> root).
Proof.
  intros Hwf Hroot Hac.
  destruct (DepthFirstFacts.get_descendants_by_edge_type_spec _ _ _ Hwf Hroot Hac)
    as (rest & Hrest & Ht & Hin).
  exists rest. unfold call, getOrderedModelNodes. simpl.
  rewrite Hrest. simpl. auto.
Qed.

(** C3, amended. On a well-formed graph whose reachable subgraph is
    acyclic, for every edge (u -> v) of the kind inside the subgraph
    reachable from the root, other than the edges leaving the root
    itself (the root is left out of the result), the returned
    sequence places v strictly before u: a requirement comes before
    what requires it. *)
Theorem getOrderedModelNodes_requirements_first (self : MetadataModel)
    (root : label) (kind : string) (u v : label) :
  well_formed (schema_nx (se self)) ->
  In root (nodes (schema_nx (se self))) ->
  acyclic_from (schema_nx (se self)) kind root ->
  reach (schema_nx (se self)) kind root u -> u <> root ->
  edge (schema_nx (se self)) kind u v ->
  exists l,
    call (getOrderedModelNodes root kind) self = Ok l /\ before v u l.
Proof.
  intros Hwf Hroot Hac Hu Hne He.
  destruct (getOrderedModelNodes_spec self root kind Hwf Hroot Hac)
    as (rest & Hcall & Ht & Hin).
  exists (rev rest). split; [exact Hcall|].
  assert (Hur : In u rest) by (apply Hin; auto).
  apply in_split in Hur as (l1 & l2 & ->).
  assert (Hv : In v l2).
  { eapply topo_after; [|exact He].
    apply (topo_tail _ _ [root]). exact Ht. }
  apply in_split in Hv as (l3 & l4 & ->).
  exists (rev l4), (rev l3), (rev l1).
  rewrite rev_app_distr. cbn [rev]. rewrite rev_app_distr. cbn [rev].
  now rewrite <- !app_assoc.
Qed.

(** C6. On a well-formed graph whose reachable subgraph is acyclic,
    the returned sequence never contains the root and never contains
    a label twice; every node reachable from the root, by however
    many paths, occurs in it exactly once. *)
Theorem getOrderedModelNodes_no_root_no_duplicates (self : MetadataModel)
    (root : label) (kind : string) :
  well_formed (schema_nx (se self)) ->
  In root (nodes (schema_nx (se self))) ->
  acyclic_from (schema_nx (se self)) kind root ->
  exists l,
    call (getOrderedModelNodes root kind) self = Ok l /\
    ~ In root l /\ NoDup l /\
    (forall x, reach (schema_nx (se self)) kind root x -> x <> root ->
               count_occ string_dec l x = 1).
Proof.
  intros Hwf Hroot Hac.
  destruct (getOrderedModelNodes_spec self root kind Hwf Hroot Hac)
    as (rest & Hcall & Ht & Hin).
  exists (rev rest). split; [exact Hcall|].
  assert (Hnd : NoDup (rev rest)).
  { apply NoDup_rev. apply topo_NoDup in Ht. now inversion Ht. }
  repeat split.
  - rewrite <- in_rev. intros H. apply Hin in H as [_ H]. now apply H.
  - exact Hnd.
  - intros x Hr Hne.
    apply (proj1 (NoDup_count_occ' string_dec (rev rest)) Hnd).
    rewrite <- in_rev. apply Hin. auto.
Qed.

End OrderedNodesFacts.

(** ** The breadth-first resolver and get_component_requirements *)

Module BreadthFirstFacts.
Import Graph GraphFacts SchemaGenerator.

Section Bfs.
Variable g : SchemaGraph.
Variable kind : string.
Variable source : label.
Hypothesis Hwf : well_formed g.
Hypothesis Hsource : In source (nodes g).
Hypothesis Hac : acyclic_from g kind source.

(** Every queued node is reachable from the source, and from every
    node of the path recorded with it. *)
#[local] Abbreviation queue_ok queue :=
  (Forall (fun e : label * list label =>
             reach g kind source (fst e) /\
             forall x, In x (snd e) -> reach g kind x (fst e)) queue).

Lemma bfs_children (u : label) (path : list label) :
  reach g kind source u ->
  (forall x, In x path -> reach g kind x u) ->
  forall cs, (forall c, In c cs -> edge g kind u c) ->
  forall queue visited,
    queue_ok queue -> NoDup (source :: visited) -> incl visited (nodes g) ->
    exists queue' visited',
      foldM (bfs_child u path) cs (queue, visited) = Ok (queue', visited') /\
      queue_ok queue' /\ NoDup (source :: visited') /\
      incl visited' (nodes g) /\
      length queue' + length visited = length queue + length visited'.
Proof.
  intros Hu Hpath. induction cs as [|c cs IH]; intros Hcs queue visited Hq Hnd Hincl.
  - exists queue, visited. simpl. auto.
  - assert (He : edge g kind u c) by (apply Hcs; now left).
    assert (Hcs' : forall c', In c' cs -> edge g kind u c')
      by (intros c' Hc'; apply Hcs; now right).
    cbn [foldM bfs_child].
    destruct (mem c (u :: path)) eqn:Hcyc.
    { exfalso. apply mem_In in Hcyc. apply (Hac u c Hu He).
      destruct Hcyc as [<-|Hc]; [apply reach_refl | now apply Hpath]. }
    destruct (mem c visited) eqn:Hvis.
    { now apply IH. }
    apply mem_false in Hvis.
    destruct (IH Hcs' (queue ++ [(c, u :: path)]) (visited ++ [c]))
      as (queue' & visited' & Hf & Hq' & Hnd' & Hincl' & Hlen).
    + apply Forall_app. split; [exact Hq|].
      constructor; [|constructor]. simpl. split.
      * eapply reach_snoc; eauto.
      * intros x [<-|Hx]; [now apply reach_edge|].
        eapply reach_snoc; [now apply Hpath | exact He].
    + assert (Hcs0 : c <> source).
      { intros ->. exact (Hac u source Hu He Hu). }
      inversion Hnd as [|? ? Hs Hv]; subst.
      constructor.
      * rewrite in_app_iff. intros [H|[H|[]]]; [contradiction | congruence].
      * apply NoDup_app; [exact Hv | repeat constructor; intros [] |].
        intros x Hx [<-|[]]. contradiction.
    + intros x Hx. apply in_app_iff in Hx as [Hx|[<-|[]]]; [now apply Hincl|].
      now apply (Hwf u c kind).
    + exists queue', visited'. repeat split; auto.
      rewrite !length_app in Hlen. simpl in Hlen. lia.
Qed.

Lemma bfs_total (fuel : nat) :
  forall queue visited,
    queue_ok queue -> NoDup (source :: visited) -> incl visited (nodes g) ->
    length queue + length (nodes g) <= fuel + length visited ->
    exists l, bfs g kind fuel queue visited = Ok l /\ NoDup l /\ ~ In source l.
Proof.
  induction fuel as [|fuel IH]; intros queue visited Hq Hnd Hincl Hlen.
  - assert (Hle : length (source :: visited) <= length (nodes g)).
    { apply NoDup_incl_length; [exact Hnd|].
      intros x [<-|Hx]; auto. }
    simpl in Hle, Hlen. lia.
  - destruct queue as [|[u path] queue]; simpl.
    + exists visited. inversion Hnd; auto.
    + inversion Hq as [|? ? [Hu Hpath] Hq']; subst. simpl in Hu, Hpath.
      destruct (bfs_children u path Hu Hpath (outEdges g kind u))
        with (queue := queue) (visited := visited)
        as (queue' & visited' & Hf & Hq2 & Hnd2 & Hincl2 & Hlen2); auto.
      { intros c Hc. now apply outEdges_edge. }
      rewrite Hf. simpl. apply IH; auto.
      simpl in Hlen. lia.
Qed.

End Bfs.

(** On an acyclic closure the component resolver returns, without
    duplicates and without the source. *)
Lemma get_component_requirements_spec (g : SchemaGraph) (source : label) :
  well_formed g -> In source (nodes g) ->
  acyclic_from g "requiresComponent" source ->
  exists l,
    SchemaGenerator.get_component_requirements g source = Ok l /\
    NoDup l /\ ~ In source l.
Proof.
  intros Hwf Hs Hac. unfold SchemaGenerator.get_component_requirements, nodeExists.
  apply mem_In in Hs as Hm. rewrite Hm.
  apply bfs_total; auto.
  - constructor; [|constructor].
    split; [apply reach_refl | intros x []].
  - constructor; [intros [] | constructor].
  - intros x [].
  - simpl. lia.
Qed.

End BreadthFirstFacts.

Module ComponentRequirementsFacts.
Import Graph GraphFacts MetadataModel.

(** A call leaves the object as it found it. *)
Lemma get_component_requirements_pure (source : label) (self : MetadataModel) :
  snd (get_component_requirements source self) = self.
Proof. reflexivity. Qed.

(** C8. For a source component present in a well-formed graph whose
    requiresComponent closure is acyclic, two calls in a row on the
    same model return the same sequence, and that sequence is free of
    duplicates. *)
Theorem get_component_requirements_idempotent (self : MetadataModel)
    (source : label) :
  well_formed (schema_nx (se self)) ->
  In source (nodes (schema_nx (se self))) ->
  acyclic_from (schema_nx (se self)) "requiresComponent" source ->
  exists l,
    call_twice (get_component_requirements source) self = (Ok l, Ok l) /\
    NoDup l.
Proof.
  intros Hwf Hs Hac.
  destruct (BreadthFirstFacts.get_component_requirements_spec _ _ Hwf Hs Hac)
    as (l & Hl & Hnd & _).
  exists l. split; [|exact Hnd].
  unfold call_twice, get_component_requirements, get_nx_schema.
  now rewrite Hl.
Qed.

End ComponentRequirementsFacts.

(** ** Runs of the resolvers *)

Module ResolverRuns.
Import Graph GraphFacts MetadataModel Fixture.

Lemma model_graph_well_formed : well_formed model_graph.
Proof.
  intros u v k H. simpl in H.
  repeat (destruct H as [H|H]; [injection H as <- <- <-; simpl; tauto|]).
  contradiction.
Defined.

Lemma model_graph_ranked (kind : string) (u v : label) :
  edge model_graph kind u v -> rank v < rank u.
Proof.
  unfold edge. simpl. intros H.
  repeat (destruct H as [H|H]; [injection H as <- <- <-; vm_compute; lia|]).
  contradiction.
Defined.

Lemma model_graph_acyclic (kind : string) (root : label) :
  acyclic_from model_graph kind root.
Proof. apply (ranked_acyclic _ _ rank). apply model_graph_ranked. Defined.

(** Mutual requirements are reported as a cycle, a missing source as
    not found. *)
Lemma cyclic_graph_detected :
  SchemaGenerator.get_component_requirements cyclic_graph "A" = Raise CycleDetected /\
  SchemaGenerator.get_descendants_by_edge_type cyclic_graph "A" "requiresComponent"
    = Raise CycleDetected /\
  SchemaGenerator.get_component_requirements model_graph "missing-label"
    = Raise NotFound.
Proof. repeat split. Qed.

Lemma model_components :
  call (get_component_requirements "Patient") model = Ok ["Diagnosis"; "CancerType"].
Proof. reflexivity. Qed.

(** C3 as stated fails: Diagnosis requires CancerType, an edge inside
    the acyclic subgraph reachable from Patient, and the returned
    sequence places CancerType, not Diagnosis, first. *)
Lemma ordered_nodes_target_first :
  In "Patient" (nodes model_graph) /\
  acyclic_from model_graph "requiresDependency" "Patient" /\
  reach model_graph "requiresDependency" "Patient" "Diagnosis" /\
  edge model_graph "requiresDependency" "Diagnosis" "CancerType" /\
  call (getOrderedModelNodes "Patient" "requiresDependency") model
    = Ok ["CancerType"; "Diagnosis"; "Age"] /\
  ~ before "Diagnosis" "CancerType" ["CancerType"; "Diagnosis"; "Age"].
Proof.
  split; [simpl; tauto|].
  split; [apply model_graph_acyclic|].
  split; [apply reach_edge; unfold edge; simpl; tauto|].
  split; [unfold edge; simpl; tauto|].
  split; [reflexivity|].
  rewrite before_beforeb. vm_compute. discriminate.
Qed.

Lemma requirements_first_witness :
  exists l,
    call (getOrderedModelNodes "Patient" "requiresDependency") model = Ok l /\
    before "CancerType" "Diagnosis" l.
Proof.
  apply (OrderedNodesFacts.getOrderedModelNodes_requirements_first
           model "Patient" "requiresDependency" "Diagnosis" "CancerType").
  - exact model_graph_well_formed.
  - simpl. tauto.
  - apply model_graph_acyclic.
  - apply reach_edge. unfold edge. simpl. tauto.
  - discriminate.
  - unfold edge. simpl. tauto.
Defined.

Lemma no_root_no_duplicates_witness :
  exists l,
    call (getOrderedModelNodes "Patient" "requiresDependency") model = Ok l /\
    ~ In "Patient" l /\ NoDup l /\
    (forall x, reach model_graph "requiresDependency" "Patient" x ->
               x <> "Patient" -> count_occ string_dec l x = 1).
Proof.
  apply (OrderedNodesFacts.getOrderedModelNodes_no_root_no_duplicates
           model "Patient" "requiresDependency").
  - exact model_graph_well_formed.
  - simpl. tauto.
  - apply model_graph_acyclic.
Defined.

Lemma idempotent_witness :
  exists l,
    call_twice (get_component_requirements "Patient") model = (Ok l, Ok l) /\
    NoDup l.
Proof.
  apply (ComponentRequirementsFacts.get_component_requirements_idempotent model "Patient").
  - exact model_graph_well_formed.
  - simpl. tauto.
  - apply model_graph_acyclic.
Defined.

End ResolverRuns.

(** ** More on splitting *)

Module SplitFacts.
Import PyStr PyText PyStrFacts.
#[local] Open Scope string_scope.

Lemma drop_nil (k : nat) : drop k "" = "".
Proof. now destruct k. Qed.

#[local] Arguments prefix : simpl never.

(** No piece of a split holds the separator. *)
Lemma split_go_free (sep : string) :
  sep <> "" ->
  forall s skip cur,
    (forall j, j < String.length cur ->
               prefix sep (drop j (cur ++ drop skip s)) = false) ->
    Forall (fun t => contains sep t = false) (split_go sep skip cur s).
Proof.
  intros Hsep. induction s as [|c s IH]; intros skip cur Hinv; cbn [split_go].
  - constructor; [|constructor]. rewrite drop_nil in Hinv.
    now apply (free_before sep cur "").
  - destruct skip as [|k]; [|now apply IH].
    cbn [drop] in Hinv.
    destruct (prefix sep (String c s)) eqn:Hp.
    + constructor; [now apply (free_before sep cur (String c s))|].
      apply IH. intros j Hj. simpl in Hj. lia.
    + apply IH. cbn [drop]. intros j Hj.
      rewrite append_assoc. cbn [append].
      rewrite length_append in Hj. cbn [String.length] in Hj.
      destruct (Nat.eq_dec j (String.length cur)) as [->|Hne].
      * now rewrite drop_length_app.
      * apply Hinv. lia.
Qed.

Lemma split_free (sep s : string) :
  sep <> "" -> Forall (fun t => contains sep t = false) (split sep s).
Proof.
  intros Hsep. unfold split. apply split_go_free; [exact Hsep|].
  intros j Hj. simpl in Hj. lia.
Qed.

(** A text that holds the separator splits into two pieces at least. *)
Lemma split_go_two (sep : string) :
  sep <> "" ->
  forall s cur, contains sep s = true -> 2 <= length (split_go sep 0 cur s).
Proof.
  intros Hsep. induction s as [|c s IH]; intros cur H; cbn [split_go contains] in *.
  - destruct sep; [congruence | discriminate].
  - destruct (prefix sep (String c s)) eqn:Hp.
    + cbn [length].
      pose proof (split_go_nonempty sep (String.length sep - 1) "" s) as Hne.
      destruct (split_go sep (String.length sep - 1) "" s); [congruence|].
      simpl. lia.
    + simpl in H. now apply IH.
Qed.

Lemma split_two (sep s : string) :
  sep <> "" -> contains sep s = true -> 2 <= length (split sep s).
Proof. intros Hsep H. now apply split_go_two. Qed.

#[local] Arguments prefix : simpl nomatch.

(** *** One-character separators *)

Lemma prefix_char (c a : ascii) (s : string) :
  prefix (String c "") (String a s) = Ascii.eqb a c.
Proof.
  cbv [prefix]. destruct (ascii_dec c a) as [->|Hne].
  - rewrite Ascii.eqb_refl. now destruct s.
  - destruct (Ascii.eqb_spec a c); congruence.
Qed.

Lemma contains_char_count (c : ascii) (s : string) :
  contains (String c "") s = negb (count_char c s =? 0)%nat.
Proof.
  induction s as [|a s IH]; [reflexivity|].
  cbn [contains count_char]. rewrite prefix_char, IH.
  now destruct (Ascii.eqb a c).
Qed.

Lemma split_go_char_length (c : ascii) (s cur : string) :
  length (split_go (String c "") 0 cur s) = S (count_char c s).
Proof.
  revert cur. induction s as [|a s IH]; intros cur; [reflexivity|].
  cbn [split_go count_char]. rewrite prefix_char.
  destruct (Ascii.eqb a c); simpl; now rewrite IH.
Qed.

Lemma split_char_length (c : ascii) (s : string) :
  length (split (String c "") s) = S (count_char c s).
Proof. apply split_go_char_length. Qed.

End SplitFacts.

(** ** parse_validation_rules, further *)

Module RuleTokensFacts.
#[local] Open Scope string_scope.

(** X1. Parsing the parsed rules again changes nothing. *)
Theorem parse_validation_rules_idempotent (validation_rules : list string) :
  parse_validation_rules (parse_validation_rules validation_rules)
  = parse_validation_rules validation_rules.
Proof.
  destruct validation_rules as [|first rest]; [reflexivity|].
  cbn [parse_validation_rules].
  destruct (PyStr.contains "::" first) eqn:Hc.
  - destruct (PyStr.split "::" first) as [|h t] eqn:Hs; [reflexivity|].
    cbn [parse_validation_rules].
    rewrite (PyStrFacts.split_head_free "::" first h t); [reflexivity | discriminate | exact Hs].
  - cbn [parse_validation_rules]. now rewrite Hc.
Qed.

(** X2. When the first rule string holds the delimiter, the parser returns
    two tokens at least, none of them holds the delimiter, and joined
    by the delimiter they give the first rule string back. *)
Theorem parse_validation_rules_tokens (first : string) (rest : list string) :
  PyStr.contains "::" first = true ->
  2 <= length (parse_validation_rules (first :: rest)) /\
  Forall (fun token => PyStr.contains "::" token = false)
         (parse_validation_rules (first :: rest)) /\
  PyStr.join "::" (parse_validation_rules (first :: rest)) = first.
Proof.
  intros Hc. cbn [parse_validation_rules]. rewrite Hc.
  split; [|split].
  - apply SplitFacts.split_two; [discriminate | exact Hc].
  - apply SplitFacts.split_free. discriminate.
  - apply PyStrFacts.join_split. discriminate.
Qed.

Lemma parse_validation_rules_tokens_witness :
  2 <= length (parse_validation_rules ["regex::list like"; "int"]) /\
  Forall (fun token => PyStr.contains "::" token = false)
         (parse_validation_rules ["regex::list like"; "int"]) /\
  PyStr.join "::" (parse_validation_rules ["regex::list like"; "int"])
    = "regex::list like".
Proof.
  apply (parse_validation_rules_tokens "regex::list like" ["int"]).
  reflexivity.
Defined.

End RuleTokensFacts.

(** ** strip_context *)

Module StripContextFacts.
Import SchemaUtils.
#[local] Open Scope string_scope.

Lemma unpack_pair_Return (l : list string) (a b : string) :
  unpack_pair l = Return (a, b) <-> l = [a; b].
Proof.
  split.
  - destruct l as [|x [|y [|z l]]]; simpl; try discriminate.
    now intros [= -> ->].
  - now intros ->.
Qed.

Lemma unpack_pair_length (l : list string) :
  (length l = 2 -> exists a b, unpack_pair l = Return (a, b)) /\
  (length l <> 2 -> unpack_pair l = Throw ValueError).
Proof.
  destruct l as [|x [|y [|z l]]]; simpl; split; intros H;
    try congruence; try discriminate; eauto.
Qed.

Lemma split_pair (sep s ctx v : string) :
  sep <> "" -> PyStr.split sep s = [ctx; v] ->
  s = ctx ++ sep ++ v /\
  PyStr.contains sep ctx = false /\ PyStr.contains sep v = false.
Proof.
  intros Hsep Hs.
  pose proof (PyStrFacts.join_split sep s Hsep) as Hj.
  pose proof (SplitFacts.split_free sep s Hsep) as Hf.
  rewrite Hs in Hj, Hf. simpl in Hj.
  inversion Hf as [|? ? H1 Hf']; subst. inversion Hf' as [|? ? H2 _]; subst.
  auto.
Qed.

(** X3. A returned pair splits the value at its only separator: the value
    is the context, the separator and the rest put together, the
    separator being the colon, or the at sign when the value holds no
    colon; neither part holds the separator. *)
Theorem strip_context_round_trip (context_value context v : string) :
  strip_context context_value = Return (context, v) ->
  exists sep,
    (sep = ":" \/ (sep = "@" /\ PyStr.contains ":" context_value = false)) /\
    context_value = context ++ sep ++ v /\
    PyStr.contains sep context = false /\ PyStr.contains sep v = false.
Proof.
  unfold strip_context.
  destruct (PyStr.contains ":" context_value) eqn:Hc.
  - intros H. apply unpack_pair_Return in H.
    exists ":". split; [now left|]. apply split_pair; [discriminate | exact H].
  - destruct (PyStr.contains "@" context_value) eqn:Ha; [|discriminate].
    intros H. apply unpack_pair_Return in H.
    exists "@". split; [now right|]. apply split_pair; [discriminate | exact H].
Qed.

Lemma strip_context_round_trip_witness :
  exists sep,
    (sep = ":" \/ (sep = "@" /\ PyStr.contains ":" "bts:Patient" = false)) /\
    "bts:Patient" = "bts" ++ sep ++ "Patient" /\
    PyStr.contains sep "bts" = false /\ PyStr.contains sep "Patient" = false.
Proof.
  apply (strip_context_round_trip "bts:Patient" "bts" "Patient").
  reflexivity.
Defined.

(** X4. The failures: the names are unassigned exactly when the value
    holds neither a colon nor an at sign; the unpacking fails exactly
    when the value holds two colons or more, or no colon and two at
    signs or more. *)
Theorem strip_context_errors (context_value : string) :
  (strip_context context_value = Throw UnboundLocalError <->
   PyText.count_char ":" context_value = 0 /\
   PyText.count_char "@" context_value = 0) /\
  (strip_context context_value = Throw ValueError <->
   2 <= PyText.count_char ":" context_value \/
   (PyText.count_char ":" context_value = 0 /\
    2 <= PyText.count_char "@" context_value)).
Proof.
  unfold strip_context.
  rewrite !SplitFacts.contains_char_count.
  pose proof (SplitFacts.split_char_length ":" context_value) as Hc.
  pose proof (SplitFacts.split_char_length "@" context_value) as Ha.
  destruct (unpack_pair_length (PyStr.split ":" context_value)) as [Hc2 Hcn].
  destruct (unpack_pair_length (PyStr.split "@" context_value)) as [Ha2 Han].
  destruct (Nat.eqb_spec (PyText.count_char ":" context_value) 0) as [Hc0|Hc0];
    cbn [negb].
  - destruct (Nat.eqb_spec (PyText.count_char "@" context_value) 0) as [Ha0|Ha0];
      cbn [negb].
    + intuition (try discriminate; try lia).
    + destruct (Nat.eq_dec (PyText.count_char "@" context_value) 1) as [Ha1|Ha1].
      * destruct Ha2 as (a & b & ->); [lia|].
        intuition (try discriminate; try lia).
      * rewrite Han by lia.
        intuition (try discriminate; try lia).
  - destruct (Nat.eq_dec (PyText.count_char ":" context_value) 1) as [Hc1|Hc1].
    + destruct Hc2 as (a & b & ->); [lia|].
      intuition (try discriminate; try lia).
    + rewrite Hcn by lia.
      intuition (try discriminate; try lia).
Qed.

End StripContextFacts.

(** ** Labels from display names *)

Module LabelFacts.
Import PyText SchemaUtils.
#[local] Open Scope string_scope.

Lemma translate_app (table : ascii -> option string) (a b : string) :
  translate table (a ++ b) = translate table a ++ translate table b.
Proof.
  induction a as [|c a IH]; [reflexivity|].
  cbn [append translate]. rewrite IH.
  destruct (table c); [now rewrite PyStrFacts.append_assoc | reflexivity].
Qed.

Lemma translate_whitespace_gone (w : string) :
  all_string_whitespace w = true -> translate whitespace_to_none w = "".
Proof.
  induction w as [|c w IH]; [reflexivity|].
  cbn [all_string_whitespace translate]. intros H.
  apply andb_true_iff in H as [Hc Hw].
  unfold whitespace_to_none. rewrite Hc. simpl. now apply IH.
Qed.

(** A deleted character does not occur in the translated text. *)
Lemma translate_deletes (chars : list string) (x : ascii) (s : string) :
  In (String x "") chars ->
  count_char x (translate (chars_to_empty chars) s) = 0.
Proof.
  intros Hx. induction s as [|c s IH]; [reflexivity|].
  cbn [translate]. unfold chars_to_empty at 1.
  destruct (existsb (String.eqb (String c "")) chars) eqn:He.
  - exact IH.
  - cbn [count_char]. rewrite IH.
    destruct (Ascii.eqb_spec c x) as [->|Hne]; [|reflexivity].
    exfalso. assert (Ht : existsb (String.eqb (String x "")) chars = true).
    { apply existsb_exists. exists (String x ""). split; [exact Hx|].
      apply String.eqb_refl. }
    congruence.
Qed.

Lemma valid_label_free (display_name : string) (chars : list string) :
  check_if_display_name_is_valid_label display_name chars = true <->
  forall c, In c chars -> PyStr.contains c display_name = false.
Proof.
  unfold check_if_display_name_is_valid_label.
  destruct (existsb _ chars) eqn:He.
  - split; [discriminate|]. intros H.
    apply existsb_exists in He as (c & Hc & Ht). rewrite (H c Hc) in Ht. discriminate.
  - split; [|reflexivity]. intros _ c Hc.
    destruct (PyStr.contains c display_name) eqn:Hcc; [|reflexivity].
    assert (Ht : existsb (fun c => PyStr.contains c display_name) chars = true)
      by (apply existsb_exists; eauto).
    congruence.
Qed.

Section Labels.
Variable camelize : string -> bool -> answer string.

#[local] Abbreviation get_label_from_display_name :=
  (get_label_from_display_name camelize).
#[local] Abbreviation get_class_label_from_display_name :=
  (get_class_label_from_display_name camelize).
#[local] Abbreviation get_property_label_from_display_name :=
  (get_property_label_from_display_name camelize).

(** X5. With display labels asked for, a returned label never holds one
    of the blacklisted characters, whichever branch produced it and
    whatever [camelize] returns. *)
Theorem display_label_free_of_blacklist
    (display_name entry_type : string) (strict_camel_case : bool) (label : string) :
  get_label_from_display_name display_name entry_type strict_camel_case
                              "display_label" = Return label ->
  forall c, In c blacklisted_chars -> PyStr.contains c label = false.
Proof.
  unfold SchemaUtils.get_label_from_display_name. cbn [String.eqb Ascii.eqb Bool.eqb].
  destruct (check_if_display_name_is_valid_label display_name blacklisted_chars) eqn:Hv.
  - intros [= <-]. now apply valid_label_free.
  - assert (Hdel : forall l c, In c blacklisted_chars ->
        PyStr.contains c (translate (chars_to_empty blacklisted_chars) l) = false).
    { intros l c Hc.
      assert (Hone : exists x, c = String x "").
      { simpl in Hc. repeat (destruct Hc as [<-|Hc]; [eauto|]). contradiction. }
      destruct Hone as [x ->].
      now rewrite SplitFacts.contains_char_count, translate_deletes. }
    destruct (String.eqb (lower entry_type) "class").
    { destruct (SchemaUtils.get_class_label_from_display_name camelize display_name false);
        simpl; [|discriminate].
      intros [= <-]. apply Hdel. }
    destruct (String.eqb (lower entry_type) "property"); [|discriminate].
    destruct (SchemaUtils.get_property_label_from_display_name camelize display_name false);
      simpl; [|discriminate].
    intros [= <-]. apply Hdel.
Qed.

(** X6. With display labels asked for, a display name free of the
    blacklisted characters is its own label, for every entry type,
    also one that is neither class nor property. *)
Theorem display_label_keeps_valid_name
    (display_name entry_type : string) (strict_camel_case : bool) :
  (forall c, In c blacklisted_chars -> PyStr.contains c display_name = false) ->
  get_label_from_display_name display_name entry_type strict_camel_case
                              "display_label" = Return display_name.
Proof.
  intros H. apply valid_label_free in H.
  unfold SchemaUtils.get_label_from_display_name. cbn [String.eqb Ascii.eqb Bool.eqb].
  now rewrite H.
Qed.

(** X7. Without strict camel case, whitespace inside a display name does
    not count: the class label and the property label stay the same
    when a stretch of whitespace is put anywhere in the name. *)
Theorem loose_labels_ignore_whitespace (before blanks after : string) :
  all_string_whitespace blanks = true ->
  get_class_label_from_display_name (before ++ blanks ++ after) false
    = get_class_label_from_display_name (before ++ after) false /\
  get_property_label_from_display_name (before ++ blanks ++ after) false
    = get_property_label_from_display_name (before ++ after) false.
Proof.
  intros H.
  unfold SchemaUtils.get_class_label_from_display_name,
    SchemaUtils.get_property_label_from_display_name.
  rewrite !translate_app, (translate_whitespace_gone blanks H).
  split; reflexivity.
Qed.

(** X8. With strict camel case, whitespace around a display name does not
    count. *)
Theorem strict_labels_ignore_outer_whitespace (left name right : string) :
  PyStr.all_space left = true -> PyStr.all_space right = true ->
  get_class_label_from_display_name (left ++ name ++ right) true
    = get_class_label_from_display_name name true /\
  get_property_label_from_display_name (left ++ name ++ right) true
    = get_property_label_from_display_name name true.
Proof.
  intros Hl Hr.
  unfold SchemaUtils.get_class_label_from_display_name,
    SchemaUtils.get_property_label_from_display_name.
  rewrite (PyStrFacts.strip_blanks left name right Hl Hr).
  split; reflexivity.
Qed.

End Labels.

Lemma display_label_free_of_blacklist_witness :
  PyStr.contains " " "FamilyHistory" = false.
Proof.
  apply (display_label_free_of_blacklist keep_case
           "Family History" "class" false "FamilyHistory").
  - reflexivity.
  - simpl. tauto.
Defined.

Lemma display_label_keeps_valid_name_witness :
  get_label_from_display_name keep_case "Biospecimen" "neither" true "display_label"
    = Return "Biospecimen".
Proof.
  apply (display_label_keeps_valid_name keep_case "Biospecimen" "neither" true).
  intros c Hc. simpl in Hc.
  repeat (destruct Hc as [<-|Hc]; [reflexivity|]). contradiction.
Defined.

Lemma loose_labels_ignore_whitespace_witness :
  get_class_label_from_display_name keep_case ("Family" ++ " " ++ "History") false
    = get_class_label_from_display_name keep_case ("Family" ++ "History") false /\
  get_property_label_from_display_name keep_case ("Family" ++ " " ++ "History") false
    = get_property_label_from_display_name keep_case ("Family" ++ "History") false.
Proof.
  apply (loose_labels_ignore_whitespace keep_case "Family" " " "History").
  reflexivity.
Defined.

Lemma strict_labels_ignore_outer_whitespace_witness :
  get_class_label_from_display_name keep_case ("  " ++ "Family History" ++ " ") true
    = get_class_label_from_display_name keep_case "Family History" true /\
  get_property_label_from_display_name keep_case ("  " ++ "Family History" ++ " ") true
    = get_property_label_from_display_name keep_case "Family History" true.
Proof.
  apply (strict_labels_ignore_outer_whitespace keep_case "  " "Family History" " ");
    reflexivity.
Defined.

End LabelFacts.

(** ** df_utils *)

Module DfUtilsFacts.
Import Manifest DfUtils.
#[local] Open Scope string_scope.

(** *** convert_ints *)

Lemma all_digits_string_of_uint (d : Decimal.uint) :
  PyText.all_digits (NilEmpty.string_of_uint d) = true.
Proof. induction d; simpl; auto. Qed.

Lemma isdigit_string_of_uint (d : Decimal.uint) :
  d <> Decimal.Nil -> PyText.isdigit (NilEmpty.string_of_uint d) = true.
Proof.
  intros Hd. unfold PyText.isdigit.
  pose proof (all_digits_string_of_uint d) as Ha.
  destruct (NilEmpty.string_of_uint d) eqn:Hs; [|exact Ha].
  destruct d; simpl in Hs; congruence.
Qed.

(** X9. On the decimal text of an integer [n], [convert_ints] gives [n]
    back when [0 <= n < 2^63], [False] when [n] is negative (the sign
    is no digit), and overflows from [2^63] on. *)
Theorem convert_ints_of_str (n : Z) :
  convert_ints (PyText.str_of_int n) =
  if (n <? 0)%Z then Return PyFalse
  else if (n <? 2 ^ 63)%Z then Return (Int64 n)
  else Throw OverflowError.
Proof.
  destruct n as [|p|p].
  - reflexivity.
  - change (Z.pos p <? 0)%Z with false. cbv iota.
    unfold convert_ints, PyText.str_of_int. cbn [Z.to_int NilZero.string_of_int].
    pose proof (Unsigned.to_uint_nonnil p) as Hnn.
    assert (Hs : NilZero.string_of_uint (Pos.to_uint p)
                 = NilEmpty.string_of_uint (Pos.to_uint p)).
    { unfold NilZero.string_of_uint. destruct (Pos.to_uint p); congruence. }
    rewrite Hs, (isdigit_string_of_uint _ Hnn).
    unfold np_int64, PyText.int_of_digits. rewrite NilEmpty.usu.
    unfold Z.of_uint. rewrite DecimalPos.Unsigned.of_to. cbn [Z.of_N].
    now destruct (Z.pos p <? 2 ^ 63)%Z.
  - reflexivity.
Qed.

(** *** col_in_dataframe *)

Lemma lower_char_idempotent (c : ascii) :
  PyText.lower_char (PyText.lower_char c) = PyText.lower_char c.
Proof.
  destruct c as [[|] [|] [|] [|] [|] [|] [|] [|]]; reflexivity.
Qed.

Lemma lower_idempotent (s : string) : PyText.lower (PyText.lower s) = PyText.lower s.
Proof.
  induction s as [|c s IH]; [reflexivity|].
  cbn [PyText.lower]. now rewrite lower_char_idempotent, IH.
Qed.

(** X10. A column is found exactly when some column of the frame has the
    same name up to letter case; asking with the lower-cased name
    gives the same answer. *)
Theorem col_in_dataframe_case_blind (col : string) (df : DataFrame) :
  (col_in_dataframe col df = true <->
   exists name, In name (columns df) /\ PyText.lower name = PyText.lower col) /\
  col_in_dataframe (PyText.lower col) df = col_in_dataframe col df.
Proof.
  split.
  - unfold col_in_dataframe. rewrite existsb_exists. split.
    + intros (l & Hl & He). apply in_map_iff in Hl as (name & <- & Hn).
      apply String.eqb_eq in He. eauto.
    + intros (name & Hn & He). exists (PyText.lower name). split.
      * now apply in_map.
      * rewrite He. apply String.eqb_refl.
  - unfold col_in_dataframe. now rewrite lower_idempotent.
Qed.

(** *** populate_df_col_with_another_col *)

Lemma getcol_has_column (name : string) (df : DataFrame) :
  has_column name df = true -> exists cells, getcol name df = Return cells.
Proof.
  unfold has_column, columns. induction df as [|x df IH]; simpl; [discriminate|].
  rewrite (String.eqb_sym name). destruct (String.eqb (col_name x) name); eauto.
Qed.

Lemma getcol_no_column (name : string) (df : DataFrame) :
  has_column name df = false -> getcol name df = Throw KeyError.
Proof.
  unfold has_column, columns. induction df as [|x df IH]; simpl; [reflexivity|].
  rewrite (String.eqb_sym name). destruct (String.eqb (col_name x) name);
    [discriminate | exact IH].
Qed.

Lemma getcol_setcol_same (name : string) (cells : list cell) (df : DataFrame) :
  getcol name (setcol name cells df) = Return cells.
Proof.
  induction df as [|x df IH]; simpl.
  - now rewrite String.eqb_refl.
  - destruct (String.eqb (col_name x) name) eqn:He; simpl.
    + now rewrite String.eqb_refl.
    + now rewrite He.
Qed.

Lemma getcol_setcol_other (name other : string) (cells : list cell) (df : DataFrame) :
  other <> name -> getcol other (setcol name cells df) = getcol other df.
Proof.
  intros Hne. induction df as [|x df IH]; simpl.
  - destruct (String.eqb_spec name other); [congruence | reflexivity].
  - destruct (String.eqb_spec (col_name x) name) as [->|Hx]; simpl.
    + destruct (String.eqb_spec name other); [congruence | reflexivity].
    + now rewrite IH.
Qed.

Lemma columns_setcol (name : string) (cells : list cell) (df : DataFrame) :
  columns (setcol name cells df) =
  if has_column name df then columns df else (columns df ++ [name])%list.
Proof.
  unfold has_column, columns. induction df as [|x df IH]; simpl; [reflexivity|].
  rewrite (String.eqb_sym name).
  destruct (String.eqb_spec (col_name x) name) as [->|Hx]; simpl; [reflexivity|].
  rewrite IH. now destruct (existsb _ _).
Qed.

(** X11. With the source column present the copy succeeds: afterwards the
    target column reads as the source column did, every other column
    reads as before, and the column labels are the old ones, with the
    target added last if it was new. *)
Theorem populate_df_col_with_another_col_copies
    (df : DataFrame) (source_col target_col : string) :
  has_column source_col df = true ->
  exists df',
    populate_df_col_with_another_col df source_col target_col = Return df' /\
    getcol target_col df' = getcol source_col df /\
    (forall other, other <> target_col -> getcol other df' = getcol other df) /\
    columns df' = if has_column target_col df then columns df
                  else (columns df ++ [target_col])%list.
Proof.
  intros Hs. destruct (getcol_has_column _ _ Hs) as [cells Hc].
  exists (setcol target_col cells df).
  unfold populate_df_col_with_another_col. rewrite Hc. simpl.
  split; [reflexivity|]. split; [apply getcol_setcol_same|].
  split; [intros other Ho; now apply getcol_setcol_other | apply columns_setcol].
Qed.

Lemma populate_df_col_with_another_col_copies_witness :
  exists df',
    populate_df_col_with_another_col biospecimens "Sample ID" "entityId" = Return df' /\
    getcol "entityId" df' = getcol "Sample ID" biospecimens /\
    (forall other, other <> "entityId" -> getcol other df' = getcol other biospecimens) /\
    columns df' = if has_column "entityId" biospecimens then columns biospecimens
                  else (columns biospecimens ++ ["entityId"])%list.
Proof.
  apply (populate_df_col_with_another_col_copies biospecimens "Sample ID" "entityId").
  reflexivity.
Defined.

End DfUtilsFacts.

(** ** df_utils: trimming and normalising frames *)

Module FrameFacts.
Import Manifest DfUtils.
#[local] Open Scope string_scope.

Lemma map_nth_seq {A : Type} (l : list A) (d : A) :
  map (fun i => nth i l d) (seq 0 (length l)) = l.
Proof.
  induction l as [|a l IH]; [reflexivity|].
  cbn [length seq map nth]. f_equal.
  rewrite <- seq_shift, map_map. exact IH.
Qed.

Lemma filter_all {A : Type} (f : A -> bool) (l : list A) :
  (forall a, In a l -> f a = true) -> filter f l = l.
Proof.
  induction l as [|a l IH]; intros H; simpl; [reflexivity|].
  rewrite (H a (or_introl eq_refl)). f_equal. apply IH. intros b Hb. apply H. now right.
Qed.

Lemma take_all_rows (x : column) (n : nat) :
  length (col_cells x) = n -> take_rows (seq 0 n) x = x.
Proof.
  intros <-. unfold take_rows. rewrite map_nth_seq. now destruct x.
Qed.

(** A frame whose rows all hold some value loses no row. *)
Lemma dropna_all_keeps (df : DataFrame) :
  Forall (fun x => length (col_cells x) = nrows df) df ->
  (forall i, i < nrows df ->
             exists x, In x df /\ isna (nth i (col_cells x) NaN) = false) ->
  dropna_all df = df.
Proof.
  intros Hrect Hrows. unfold dropna_all.
  rewrite filter_all.
  - rewrite <- (map_id df) at 3. apply map_ext_in. intros x Hx.
    apply take_all_rows. rewrite Forall_forall in Hrect. now apply Hrect.
  - intros i Hi. apply in_seq in Hi. destruct (Hrows i) as (x & Hx & Hna); [lia|].
    destruct (forallb _ df) eqn:Hf; [|reflexivity].
    rewrite forallb_forall in Hf. rewrite (Hf x Hx) in Hna. discriminate.
Qed.

Lemma nrows_take_rows (rows : list nat) (df : DataFrame) :
  df <> [] -> nrows (map (take_rows rows) df) = length rows.
Proof.
  destruct df as [|x df]; [congruence|]. intros _. simpl. apply length_map.
Qed.

Lemma take_rows_rect (rows : list nat) (df : DataFrame) :
  Forall (fun x => length (col_cells x) = nrows (map (take_rows rows) df))
         (map (take_rows rows) df).
Proof.
  destruct df as [|x0 df]; [constructor|].
  rewrite nrows_take_rows by discriminate.
  apply Forall_forall. intros x Hx. apply in_map_iff in Hx as (y & <- & _).
  simpl. apply length_map.
Qed.

Lemma fillna_cell_filled (c : cell) : isna (fillna_cell c) = false.
Proof. now destruct c. Qed.

Lemma fillna_cell_id (c : cell) : isna c = false -> fillna_cell c = c.
Proof. now destruct c. Qed.

Lemma fillna_id (df : DataFrame) :
  Forall (fun x => Forall (fun c => isna c = false) (col_cells x)) df ->
  fillna df = df.
Proof.
  intros H. unfold fillna. rewrite <- (map_id df) at 2.
  apply map_ext_in. intros x Hx. rewrite Forall_forall in H.
  specialize (H x Hx). destruct x as [name cells]. simpl in *. f_equal.
  rewrite <- (map_id cells) at 2. apply map_ext_in. intros c Hc.
  apply fillna_cell_id. rewrite Forall_forall in H. now apply H.
Qed.

Lemma nrows_fillna (df : DataFrame) : nrows (fillna df) = nrows df.
Proof. destruct df as [|x df]; [reflexivity|]. simpl. apply length_map. Qed.

Lemma columns_fillna (df : DataFrame) : columns (fillna df) = columns df.
Proof. unfold columns, fillna. rewrite map_map. reflexivity. Qed.

Lemma columns_dropna_all (df : DataFrame) : columns (dropna_all df) = columns df.
Proof. unfold columns, dropna_all. rewrite map_map. reflexivity. Qed.

Lemma columns_drop_unnamed (df : DataFrame) :
  columns (drop_unnamed df) = filter (fun n => negb (prefix "Unnamed" n)) (columns df).
Proof.
  unfold columns, drop_unnamed. induction df as [|x df IH]; [reflexivity|].
  cbn [filter map]. destruct (prefix "Unnamed" (col_name x)); simpl; now rewrite IH.
Qed.

Lemma drop_unnamed_id (df : DataFrame) :
  Forall (fun n => prefix "Unnamed" n = false) (columns df) -> drop_unnamed df = df.
Proof.
  intros H. apply filter_all. intros x Hx. rewrite Forall_forall in H.
  rewrite (H (col_name x)); [reflexivity|]. now apply in_map.
Qed.

(** X12. The trimmed frame has the named columns of the input, in their
    order, and none whose label starts with [Unnamed]; it holds no
    missing cell, and its columns all have the same number of rows. *)
Theorem trim_commas_df_clean (df : DataFrame) :
  columns (trim_commas_df df)
    = filter (fun n => negb (prefix "Unnamed" n)) (columns df) /\
  Forall (fun n => prefix "Unnamed" n = false) (columns (trim_commas_df df)) /\
  Forall (fun x => Forall (fun c => isna c = false) (col_cells x) /\
                   length (col_cells x) = nrows (trim_commas_df df))
         (trim_commas_df df).
Proof.
  assert (Hcols : columns (trim_commas_df df)
                  = filter (fun n => negb (prefix "Unnamed" n)) (columns df)).
  { unfold trim_commas_df.
    now rewrite columns_fillna, columns_dropna_all, columns_drop_unnamed. }
  split; [exact Hcols|]. split.
  - rewrite Hcols. apply Forall_forall. intros n Hn.
    apply filter_In in Hn as [_ Hn]. now destruct (prefix "Unnamed" n).
  - unfold trim_commas_df. rewrite nrows_fillna.
    apply Forall_forall. intros x Hx. unfold fillna in Hx.
    apply in_map_iff in Hx as (y & <- & Hy). cbn [col_cells]. split.
    + apply Forall_forall. intros c Hc. apply in_map_iff in Hc as (c0 & <- & _).
      apply fillna_cell_filled.
    + rewrite length_map.
      pose proof (take_rows_rect
        (filter (fun i => negb (forallb (fun x => isna (nth i (col_cells x) NaN))
                                        (drop_unnamed df)))
                (seq 0 (nrows (drop_unnamed df)))) (drop_unnamed df)) as Hr.
      rewrite Forall_forall in Hr. now apply Hr.
Qed.

(** A frame that is already clean is left as it is. *)
Lemma trim_commas_df_fixed (df : DataFrame) :
  Forall (fun n => prefix "Unnamed" n = false) (columns df) ->
  Forall (fun x => Forall (fun c => isna c = false) (col_cells x) /\
                   length (col_cells x) = nrows df) df ->
  trim_commas_df df = df.
Proof.
  intros Hn Hc. unfold trim_commas_df.
  rewrite (drop_unnamed_id df Hn), dropna_all_keeps.
  - apply fillna_id. eapply Forall_impl; [|exact Hc]. now intros x [H _].
  - eapply Forall_impl; [|exact Hc]. now intros x [_ H].
  - intros i Hi. destruct df as [|x df]; [simpl in Hi; lia|].
    exists x. split; [now left|].
    inversion Hc as [|? ? [Hx Hlen] _]; subst.
    rewrite Forall_forall in Hx. apply Hx. apply nth_In. exact Hi.
Qed.

(** X13. Trimming twice is trimming once. *)
Theorem trim_commas_df_idempotent (df : DataFrame) :
  trim_commas_df (trim_commas_df df) = trim_commas_df df.
Proof.
  destruct (trim_commas_df_clean df) as (_ & Hn & Hc).
  now apply trim_commas_df_fixed.
Qed.

(** X14. When the named columns have one cell per row and no row of them
    is entirely missing, trimming removes no row: the result is the
    named columns with their missing cells filled by empty strings. *)
Theorem trim_commas_df_keeps_rows (df : DataFrame) :
  Forall (fun x => length (col_cells x) = nrows (drop_unnamed df)) (drop_unnamed df) ->
  (forall i, i < nrows (drop_unnamed df) ->
             exists x, In x (drop_unnamed df) /\
                       isna (nth i (col_cells x) NaN) = false) ->
  trim_commas_df df = fillna (drop_unnamed df).
Proof.
  intros Hrect Hrows. unfold trim_commas_df.
  now rewrite dropna_all_keeps.
Qed.

Lemma trim_commas_df_keeps_rows_witness :
  trim_commas_df Fixture.patients = fillna (drop_unnamed Fixture.patients).
Proof.
  apply (trim_commas_df_keeps_rows Fixture.patients).
  - repeat constructor.
  - intros i Hi. exists (nth 0 Fixture.patients {| col_name := ""; col_cells := [] |}).
    split; [simpl; tauto|].
    simpl in Hi. destruct i as [|[|[|i]]]; try reflexivity. lia.
Defined.

(** *** normalize_table *)

Lemma drop_index_column (idx : column) (df : DataFrame) :
  col_name idx = "index" -> has_column "index" df = false ->
  filter (fun x => negb (String.eqb (col_name x) "index")) (idx :: df) = df.
Proof.
  intros Hi Hn. cbn [filter]. rewrite Hi. cbn [String.eqb Ascii.eqb Bool.eqb negb].
  apply filter_all. intros x Hx.
  destruct (String.eqb_spec (col_name x) "index") as [He|]; [|reflexivity].
  exfalso. assert (Ht : has_column "index" df = true).
  { apply existsb_exists. exists (col_name x). split; [now apply in_map|].
    rewrite He. reflexivity. }
  congruence.
Qed.

(** X15. No deduplication takes place: on a frame without an [index]
    column, and with the primary key among its columns, the table
    comes back with its columns unchanged, rows that repeat a key
    included, whatever its row labels were; the rows are relabelled
    0, 1, 2, ... *)
Theorem normalize_table_keeps_duplicates
    (index : list cell) (df : DataFrame) (primary_key : string) :
  has_column "index" df = false ->
  has_column primary_key df = true ->
  normalize_table index df primary_key = Return (RangeIndex (length index), df).
Proof.
  intros Hidx Hkey. unfold normalize_table, reset_index, default_index_name.
  rewrite Hidx, Hidx.
  unfold drop_duplicates, drop_column.
  destruct (DfUtilsFacts.getcol_has_column _ _ Hkey) as [cells Hc].
  cbn [getcol col_name].
  destruct (String.eqb_spec "index" primary_key) as [<-|Hne]; [congruence|].
  rewrite Hc. cbn [and_then].
  assert (Hh : forall idx, col_name idx = "index" -> has_column "index" (idx :: df) = true).
  { intros idx Hi. unfold has_column, columns. cbn [map existsb]. now rewrite Hi. }
  rewrite Hh by reflexivity. cbn [and_then].
  now rewrite drop_index_column.
Qed.

Lemma normalize_table_keeps_duplicates_witness :
  normalize_table (trim_commas_df_index (RangeIndex 3) biospecimens)
                  (trim_commas_df biospecimens) "Sample ID"
    = Return (RangeIndex 2, trim_commas_df biospecimens).
Proof.
  apply (normalize_table_keeps_duplicates
           (trim_commas_df_index (RangeIndex 3) biospecimens)
           (trim_commas_df biospecimens) "Sample ID");
    reflexivity.
Defined.

(** X16. With a primary key that is no column of the frame, and is
    not the name the old row labels are filed under ([index] on a
    frame without an [index] column, [level_0] on a frame with one,
    which then must not have a [level_0] column as well), the table
    does not come back as it was given: it has gained a first column
    of that name that holds the old row labels, and its rows are
    relabelled 0, 1, 2, ... *)
Theorem normalize_table_missing_key
    (index : list cell) (df : DataFrame) (primary_key : string) :
  has_column (default_index_name df) df = false ->
  has_column primary_key df = false ->
  primary_key <> default_index_name df ->
  normalize_table index df primary_key =
  Return (RangeIndex (length index),
          {| col_name := default_index_name df; col_cells := index |} :: df).
Proof.
  intros Hname Hkey Hne. unfold normalize_table, reset_index. rewrite Hname.
  unfold drop_duplicates. cbn [getcol col_name].
  destruct (String.eqb_spec (default_index_name df) primary_key) as [He|_];
    [congruence|].
  now rewrite (DfUtilsFacts.getcol_no_column _ _ Hkey).
Qed.

Lemma normalize_table_missing_key_witness :
  trim_commas_df_index (RangeIndex 3) biospecimens = [CNum 0; CNum 2] /\
  normalize_table (trim_commas_df_index (RangeIndex 3) biospecimens)
                  (trim_commas_df biospecimens) "entityId" =
  Return ([CNum 0; CNum 1],
          {| col_name := "index"; col_cells := [CNum 0; CNum 2] |}
          :: trim_commas_df biospecimens).
Proof.
  split; [reflexivity|].
  apply (normalize_table_missing_key
           (trim_commas_df_index (RangeIndex 3) biospecimens)
           (trim_commas_df biospecimens) "entityId");
    [reflexivity | reflexivity | discriminate].
Defined.

End FrameFacts.

(** ** validateModelManifest, further *)

Module ValidationMoreFacts.
Import Manifest Validation ValidationFacts.
#[local] Open Scope string_scope.

Lemma length_annotations_of (manifest : DataFrame) :
  length (annotations_of manifest) = nrows manifest.
Proof.
  unfold annotations_of, to_records.
  now rewrite length_map, length_seq, ManifestFacts.nrows_normal.
Qed.

Lemma in_enumerate {A : Type} (l : list A) (a : A) :
  forall k, In a l -> exists i, In (i, a) (combine (seq k (length l)) l).
Proof.
  induction l as [|b l IH]; intros k H; [contradiction|].
  cbn [length seq combine]. destruct H as [->|H].
  - exists k. now left.
  - destruct (IH (S k) H) as [i Hi]. exists i. now right.
Qed.

(** Rows of a filtered enumeration go up strictly, within bounds. *)
Lemma rows_increasing {A : Type} (p : nat * A -> bool) (l : list A) :
  forall k,
    StronglySorted lt
      (map (fun ia => fst ia + 2) (filter p (combine (seq k (length l)) l))) /\
    Forall (fun r => k + 2 <= r < k + length l + 2)
      (map (fun ia => fst ia + 2) (filter p (combine (seq k (length l)) l))).
Proof.
  induction l as [|a l IH]; intros k; cbn [length seq combine filter map].
  - split; constructor.
  - destruct (IH (S k)) as [Hs Hb].
    assert (Hb' : Forall (fun r => k + 2 <= r < k + S (length l) + 2)
              (map (fun ia => fst ia + 2)
                   (filter p (combine (seq (S k) (length l)) l)))).
    { eapply Forall_impl; [|exact Hb]. simpl. intros r Hr. lia. }
    destruct (p (k, a)); [|now split].
    cbn [map fst]. split.
    + constructor; [exact Hs|].
      eapply Forall_impl; [|exact Hb]. simpl. intros r Hr. lia.
    + constructor; [simpl; lia | exact Hb'].
Qed.

Section Validator.
Variable schema : Type.
Variable truthy : schema -> bool.
Variable get_JSONSchema_requirements : string -> string -> schema.
Variable check_schema : schema -> bool.
Variable iter_errors : schema -> annotation -> list string.
Variable best_match : string -> list string -> string.

#[local] Abbreviation validate := (validate schema check_schema iter_errors best_match).
#[local] Abbreviation validate_record :=
  (validate_record schema check_schema iter_errors best_match).
#[local] Abbreviation validateModelManifest :=
  (validateModelManifest schema truthy get_JSONSchema_requirements
                         check_schema iter_errors best_match).
#[local] Abbreviation schema_in_use := (schema_in_use schema truthy get_JSONSchema_requirements).

(** X22. A manifest without data rows validates to the empty list, whatever
    the schema: a malformed schema goes unnoticed, the validator
    never being called. *)
Theorem validateModelManifest_no_rows
    (manifest : DataFrame) (rootNode : string) (jsonSchema : option schema) :
  nrows manifest = 0 ->
  validateModelManifest manifest rootNode jsonSchema = Ok [].
Proof.
  intros H. unfold Validation.validateModelManifest.
  pose proof (length_annotations_of manifest) as Hl. rewrite H in Hl.
  destruct (annotations_of manifest); [reflexivity | discriminate].
Qed.

(** X23. A malformed schema fails the call with [SchemaError] as soon as
    the manifest has a data row, whatever the rows hold. *)
Theorem validateModelManifest_malformed_schema
    (manifest : DataFrame) (rootNode : string) (jsonSchema : option schema) :
  check_schema (schema_in_use rootNode jsonSchema) = false ->
  0 < nrows manifest ->
  validateModelManifest manifest rootNode jsonSchema = Raise SchemaError.
Proof.
  intros Hs Hn. unfold Validation.validateModelManifest.
  pose proof (length_annotations_of manifest) as Hl.
  destruct (annotations_of manifest) as [|a anns]; [simpl in Hl; lia|].
  unfold enumerate. cbn [length seq combine foldM].
  unfold Validation.validate_record, Validation.validate. now rewrite Hs.
Qed.

Lemma loop_all_valid (s : schema) (l : list (nat * annotation)) (acc : list Diagnostic) :
  check_schema s = true ->
  (forall ia, In ia l -> iter_errors s (snd ia) = []) ->
  foldM (validate_record s) l acc = Ok acc.
Proof.
  intros Hs. induction l as [|[i a] l IH]; intros H; [reflexivity|].
  cbn [foldM]. unfold Validation.validate_record at 1, Validation.validate.
  pose proof (H (i, a) (or_introl eq_refl)) as Ha. cbn [snd] in Ha.
  rewrite Hs, Ha. apply IH.
  intros ia Hia. apply H. now right.
Qed.

(** X24. Under a well-formed schema the call returns the empty list
    exactly when no record of the manifest violates a constraint. *)
Theorem validateModelManifest_empty_iff_valid
    (manifest : DataFrame) (rootNode : string) (jsonSchema : option schema) :
  check_schema (schema_in_use rootNode jsonSchema) = true ->
  (validateModelManifest manifest rootNode jsonSchema = Ok [] <->
   forall annotation,
     In annotation (annotations_of manifest) ->
     iter_errors (schema_in_use rootNode jsonSchema) annotation = []).
Proof.
  intros Hs. unfold Validation.validateModelManifest. split.
  - intros H a Ha.
    apply loop_Ok in H as (dss & HF & Hds). simpl in Hds.
    assert (Hin : exists i, In (i, a) (enumerate (annotations_of manifest))).
    { unfold enumerate. now apply in_enumerate. }
    destruct Hin as [i Hin].
    clear Ha. revert dss HF Hds.
    induction (enumerate (annotations_of manifest)) as [|ia l IH]; intros dss HF Hds;
      [contradiction|].
    inversion HF as [|? dl ? dss' Hd HF']; subst.
    simpl in Hds. symmetry in Hds. apply app_eq_nil in Hds as [Hdl Hrest].
    destruct Hin as [->|Hin].
    + apply validate_record_cases in Hd as [[He _]|(e & es & d & _ & _ & _ & Hd)];
        [exact He | congruence].
    + apply (IH Hin dss' HF'). now symmetry.
  - intros H. apply loop_all_valid; [exact Hs|].
    intros [i a] Hia. apply H. unfold enumerate in Hia.
    now apply in_combine_r in Hia.
Qed.

(** X25. The diagnostics come in strictly increasing row order, so no two
    of them share a row, and every row number lies between 2 and the
    number of data rows plus 1. *)
Theorem validateModelManifest_rows_increase
    (manifest : DataFrame) (rootNode : string) (jsonSchema : option schema)
    (ds : list Diagnostic) :
  validateModelManifest manifest rootNode jsonSchema = Ok ds ->
  StronglySorted lt (map errorRow ds) /\
  Forall (fun row => 2 <= row <= nrows manifest + 1) (map errorRow ds).
Proof.
  unfold Validation.validateModelManifest. intros H.
  apply loop_Ok in H as (dss & HF & ->). cbn [app].
  rewrite (rows_of_loop _ _ _ _ _ _ _ HF). unfold enumerate.
  destruct (rows_increasing
              (fun ia => match iter_errors (schema_in_use rootNode jsonSchema) (snd ia) with
                         | [] => false
                         | _ :: _ => true
                         end)
              (annotations_of manifest) 0) as [Hs Hb].
  split; [exact Hs|].
  eapply Forall_impl; [|exact Hb]. cbn beta.
  rewrite length_annotations_of. intros r Hr. lia.
Qed.

End Validator.

Lemma no_rows_witness :
  validateModelManifest Fixture.schema Fixture.truthy
    Fixture.get_JSONSchema_requirements Fixture.check_schema Fixture.iter_errors
    Fixture.best_match [] "Patient" None = Ok [].
Proof.
  apply (validateModelManifest_no_rows Fixture.schema Fixture.truthy
           Fixture.get_JSONSchema_requirements Fixture.check_schema
           Fixture.iter_errors Fixture.best_match [] "Patient" None).
  reflexivity.
Defined.

Lemma malformed_schema_witness :
  validateModelManifest Fixture.schema Fixture.truthy
    Fixture.get_JSONSchema_requirements (fun _ => false) Fixture.iter_errors
    Fixture.best_match Fixture.patients "Patient" (Some Fixture.patient_schema)
  = Raise SchemaError.
Proof.
  apply (validateModelManifest_malformed_schema Fixture.schema Fixture.truthy
           Fixture.get_JSONSchema_requirements (fun _ => false)
           Fixture.iter_errors Fixture.best_match Fixture.patients "Patient"
           (Some Fixture.patient_schema)).
  - reflexivity.
  - simpl. lia.
Defined.

Lemma empty_iff_valid_witness :
  Fixture.run Fixture.patients Fixture.age_schema = Ok [] <->
  forall annotation,
    In annotation (annotations_of Fixture.patients) ->
    Fixture.iter_errors
      (schema_in_use Fixture.schema Fixture.truthy Fixture.get_JSONSchema_requirements
                     "Patient" (Some Fixture.age_schema)) annotation = [].
Proof.
  apply (validateModelManifest_empty_iff_valid Fixture.schema Fixture.truthy
           Fixture.get_JSONSchema_requirements Fixture.check_schema
           Fixture.iter_errors Fixture.best_match Fixture.patients "Patient"
           (Some Fixture.age_schema)).
  reflexivity.
Defined.

Lemma rows_increase_witness :
  StronglySorted lt (map errorRow [Fixture.unknown_diagnosis; Fixture.missing_stage]) /\
  Forall (fun row => 2 <= row <= nrows Fixture.patients + 1)
         (map errorRow [Fixture.unknown_diagnosis; Fixture.missing_stage]).
Proof.
  apply (validateModelManifest_rows_increase Fixture.schema Fixture.truthy
           Fixture.get_JSONSchema_requirements Fixture.check_schema
           Fixture.iter_errors Fixture.best_match Fixture.patients "Patient"
           (Some Fixture.patient_schema)).
  vm_compute. reflexivity.
Defined.

End ValidationMoreFacts.

(** ** Configuration *)

Module ConfigFacts.
Import Config.
#[local] Open Scope string_scope.

Lemma lookup_dict_set_same (key : string) (v : pyobj) (d : list (string * pyobj)) :
  lookup key (dict_set key v d) = Some v.
Proof.
  induction d as [|[k w] d IH]; simpl.
  - now rewrite String.eqb_refl.
  - destruct (String.eqb k key) eqn:He; simpl; now rewrite He.
Qed.

Lemma lookup_dict_set_other (key other : string) (v : pyobj) (d : list (string * pyobj)) :
  other <> key -> lookup other (dict_set key v d) = lookup other d.
Proof.
  intros Hne. induction d as [|[k w] d IH]; simpl.
  - destruct (String.eqb_spec key other); [congruence | reflexivity].
  - destruct (String.eqb_spec k key) as [->|Hk]; simpl.
    + destruct (String.eqb_spec key other); [congruence | reflexivity].
    + now rewrite IH.
Qed.

Section Environment.
Variable environ : option string.
Variable load_yaml : string -> answer (option pyobj).
Variable abspath : string -> string.

#[local] Abbreviation get := (get environ load_yaml abspath).
#[local] Abbreviation load_config := (load_config environ load_yaml abspath).
#[local] Abbreviation getattribute_DATA := (getattribute_DATA environ load_yaml abspath).

(** X17. On a loaded configuration [get] answers from the data: the value
    of a key that is there, and a [KeyError] for a key that is not;
    the default is not returned and the object is not touched. *)
Theorem get_loaded (depth : nat) (key : string) (default : pyobj)
    (self : Configuration) (d : list (string * pyobj)) :
  DATA self = Some (PDict d) ->
  get depth key default self =
  (match lookup key d with
   | Some value => Return value
   | None => Throw KeyError
   end, self).
Proof.
  intros H. unfold Config.get, getitem_key.
  destruct depth; simpl; rewrite H; simpl; now destruct (lookup key d).
Qed.

(** X18. Without loaded data and without [SCHEMATIC_CONFIG] in the
    environment, [get] returns the default for every key. *)
Theorem get_unloaded (depth : nat) (key : string) (default : pyobj)
    (self : Configuration) :
  DATA self = None -> environ = None ->
  get depth key default self = (Return default, self).
Proof.
  intros H He. unfold Config.get, getitem_key.
  destruct depth; simpl; now rewrite H, He.
Qed.

(** X19. Without loaded data, [get] loads the file that [SCHEMATIC_CONFIG]
    names, keeps its data and its path in the object, and answers
    from the data as on a loaded configuration. *)
Theorem get_loads_from_environment (depth : nat) (key : string) (default : pyobj)
    (self : Configuration) (schematic_config : string)
    (d : list (string * pyobj)) :
  DATA self = None -> environ = Some schematic_config ->
  load_yaml (abspath schematic_config) = Return (Some (PDict d)) ->
  get (S depth) key default self =
  (match lookup key d with
   | Some value => Return value
   | None => Throw KeyError
   end,
   {| CONFIG_PATH := Some (abspath schematic_config); DATA := Some (PDict d) |}).
Proof.
  intros H He Hy. unfold Config.get, getitem_key.
  cbn [Config.getattribute_DATA]. rewrite H, He.
  unfold load_from. rewrite Hy. cbn [set_DATA set_CONFIG_PATH DATA CONFIG_PATH].
  destruct depth; simpl; now destruct (lookup key d).
Qed.

Lemma getattribute_DATA_empty (schematic_config : string) :
  environ = Some schematic_config ->
  load_yaml (abspath schematic_config) = Return None ->
  forall depth self,
    DATA self = None ->
    fst (getattribute_DATA depth self) = Throw RecursionError.
Proof.
  intros He Hy. induction depth as [|depth IH]; intros self H.
  - simpl. now rewrite H, He.
  - cbn [Config.getattribute_DATA]. rewrite H, He.
    unfold load_from. rewrite Hy.
    specialize (IH (set_CONFIG_PATH (Some (abspath schematic_config))
                                    (set_DATA None self)) eq_refl).
    rewrite He in IH.
    destruct (Config.getattribute_DATA _ _ _ depth _) as [r self'].
    simpl in IH. now subst r.
Qed.

(** X20. When the file that [SCHEMATIC_CONFIG] names parses to nothing,
    [get] on an unloaded configuration neither returns the default
    nor a value: loading calls itself until the stack is used up,
    however deep the stack. *)
Theorem get_empty_file_recurses (depth : nat) (key : string) (default : pyobj)
    (self : Configuration) (schematic_config : string) :
  DATA self = None -> environ = Some schematic_config ->
  load_yaml (abspath schematic_config) = Return None ->
  fst (get depth key default self) = Throw RecursionError.
Proof.
  intros H He Hy. unfold Config.get, getitem_key.
  pose proof (getattribute_DATA_empty schematic_config He Hy depth self H) as Hr.
  destruct (getattribute_DATA depth self) as [r self']. simpl in Hr. now subst r.
Qed.

(** X21. Loading a file whose [synapse] section is a mapping, with both
    overrides given, returns and keeps the file's data with the two
    entries of that section set to the overrides; the other entries
    of the section and the other sections are as in the file. *)
Theorem load_config_overrides (depth : nat) (self : Configuration)
    (path view name : string) (d synapse : list (string * pyobj)) :
  load_yaml (abspath path) = Return (Some (PDict d)) ->
  lookup "synapse" d = Some (PDict synapse) ->
  view <> "" -> name <> "" ->
  exists d' synapse',
    load_config depth (Some path) (Some view) (Some name) self =
    (Return (Some (PDict d')),
     {| CONFIG_PATH := Some (abspath path); DATA := Some (PDict d') |}) /\
    lookup "synapse" d' = Some (PDict synapse') /\
    lookup "master_fileview" synapse' = Some (PStr view) /\
    lookup "manifest_filename" synapse' = Some (PStr name) /\
    (forall key, key <> "master_fileview" -> key <> "manifest_filename" ->
                 lookup key synapse' = lookup key synapse) /\
    (forall key, key <> "synapse" -> lookup key d' = lookup key d).
Proof.
  intros Hy Hs Hv Hn.
  set (synapse1 := dict_set "master_fileview" (PStr view) synapse).
  set (d1 := dict_set "synapse" (PDict synapse1) d).
  set (synapse2 := dict_set "manifest_filename" (PStr name) synapse1).
  set (d2 := dict_set "synapse" (PDict synapse2) d1).
  exists d2, synapse2. split; [|split; [|split; [|split; [|split]]]].
  - unfold Config.load_config, load_config_with, load_from. rewrite Hy.
    assert (Ht : truthy (Some view) && truthy (Some name) = true).
    { destruct view, name; try congruence. reflexivity. }
    rewrite Ht. unfold set_in_section.
    assert (Hg : forall data path',
               getattribute_DATA depth {| CONFIG_PATH := path'; DATA := Some data |}
               = (Return (Some data), {| CONFIG_PATH := path'; DATA := Some data |})).
    { intros data path'. now destruct depth. }
    unfold set_DATA, set_CONFIG_PATH. cbn [DATA CONFIG_PATH].
    rewrite Hg. cbn [subscript]. rewrite Hs. cbn [DATA CONFIG_PATH].
    fold synapse1. fold d1.
    rewrite Hg. cbn [subscript]. unfold d1 at 1. rewrite lookup_dict_set_same.
    cbn [DATA CONFIG_PATH]. fold d1. fold synapse2. fold d2.
    now rewrite Hg.
  - apply lookup_dict_set_same.
  - unfold synapse2. rewrite lookup_dict_set_other by discriminate.
    apply lookup_dict_set_same.
  - apply lookup_dict_set_same.
  - intros key H1 H2. unfold synapse2, synapse1.
    now rewrite !lookup_dict_set_other.
  - intros key Hk. unfold d2, d1. now rewrite !lookup_dict_set_other.
Qed.

End Environment.

Lemma get_loaded_witness :
  Config.get None read_config_yml under_app 1 "model-input" (PStr "local")
             {| CONFIG_PATH := Some "/app/config.yml"; DATA := Some config_yml |}
  = (Throw KeyError,
     {| CONFIG_PATH := Some "/app/config.yml"; DATA := Some config_yml |}).
Proof.
  apply (get_loaded None read_config_yml under_app 1 "model-input" (PStr "local")
           {| CONFIG_PATH := Some "/app/config.yml"; DATA := Some config_yml |}
           config_sections).
  reflexivity.
Defined.

Lemma get_unloaded_witness :
  Config.get None read_config_yml under_app 1 "model" (PStr "local") fresh
  = (Return (PStr "local"), fresh).
Proof.
  apply (get_unloaded None read_config_yml under_app 1 "model" (PStr "local") fresh);
    reflexivity.
Defined.

Lemma get_loads_from_environment_witness :
  Config.get (Some "config.yml") read_config_yml under_app 1 "model" (PStr "local") fresh
  = (Return (PDict [("location", PStr "example.model.jsonld")]),
     {| CONFIG_PATH := Some "/app/config.yml"; DATA := Some config_yml |}).
Proof.
  apply (get_loads_from_environment (Some "config.yml") read_config_yml under_app
           0 "model" (PStr "local") fresh "config.yml" config_sections);
    reflexivity.
Defined.

Lemma get_empty_file_recurses_witness :
  fst (Config.get (Some "empty.yml") read_config_yml under_app 1000 "model"
                  (PStr "local") fresh)
  = Throw RecursionError.
Proof.
  apply (get_empty_file_recurses (Some "empty.yml") read_config_yml under_app
           1000 "model" (PStr "local") fresh "empty.yml");
    reflexivity.
Defined.

Lemma load_config_overrides_witness :
  exists d' synapse',
    Config.load_config None read_config_yml under_app 1 (Some "config.yml")
                       (Some "syn1") (Some "manifest.csv") fresh =
    (Return (Some (PDict d')),
     {| CONFIG_PATH := Some (under_app "config.yml"); DATA := Some (PDict d') |}) /\
    lookup "synapse" d' = Some (PDict synapse') /\
    lookup "master_fileview" synapse' = Some (PStr "syn1") /\
    lookup "manifest_filename" synapse' = Some (PStr "manifest.csv") /\
    (forall key, key <> "master_fileview" -> key <> "manifest_filename" ->
                 lookup key synapse' = lookup key synapse_section) /\
    (forall key, key <> "synapse" -> lookup key d' = lookup key config_sections).
Proof.
  apply (load_config_overrides None read_config_yml under_app 1 fresh
           "config.yml" "syn1" "manifest.csv" config_sections synapse_section).
  - reflexivity.
  - reflexivity.
  - discriminate.
  - discriminate.
Defined.

End ConfigFacts.
